(** * AlarmNotifications: the alarm aggregation core

    A shallow embedding of [AlarmStatusEntry] (alarmstatusentry.cpp) and of
    [AlarmServerConnector] (alarmserverconnector.cpp), and the properties
    of the alarm map, of the oldest-alarm timestamp and of the three
    notification channels that follow from the code. *)

From Stdlib Require Import ZArith String Lia.
From stdpp Require Import gmap strings list fin_maps.

Local Open Scope string_scope.
Local Open Scope list_scope.
Local Open Scope Z_scope.

(** ** Exceptions

    The C++ exceptions the core can raise: [std::out_of_range], thrown by
    [std::string::substr] and [std::string::replace], the
    [std::logic_error] of the constructor, and the two exceptions the
    constructor of the CMS client passes on, [std::runtime_error] and
    [cms::CMSException]. *)

Inductive exception : Type :=
  | out_of_range
  | logic_error (what : string)
  | runtime_error (what : string)
  | CMSException (message : string).

Inductive result (A : Type) : Type :=
  | Ok (a : A)
  | Throw (e : exception).

Arguments Ok {A} a.
Arguments Throw {A} e.

Definition bind {A B : Type} (r : result A) (k : A -> result B) : result B :=
  match r with
  | Ok a => k a
  | Throw e => Throw e
  end.

Notation "'do' x <- r ; k" := (bind r (fun x => k))
  (at level 10, x name, r at level 100, k at level 200).

(** ** std::string

    [size_t] is a 64-bit unsigned integer: subtraction wraps modulo 2^64. *)

Module StdString.

Definition size_max : Z := 2 ^ 64.

Definition length (s : string) : Z := Z.of_nat (String.length s).

(** [a - b] on [size_t]. *)
Definition size_sub (a b : Z) : Z := (a - b) mod size_max.

(** [s.substr(pos, n)]: throws [std::out_of_range] when [pos > size()],
    otherwise the characters [pos .. pos + min(n, size() - pos)). *)
Definition substr (s : string) (pos n : Z) : result string :=
  if length s <? pos then Throw out_of_range
  else Ok (String.substring (Z.to_nat pos)
                            (Z.to_nat (Z.min n (length s - pos))) s).

End StdString.

(** ** AlarmServerConnector::checkSeverityString *)

Definition checkSeverityString (severity : string) : result bool :=
  if String.eqb severity "OK" then Ok true
  else
    do tail <- StdString.substr severity
                 (StdString.size_sub (StdString.length severity) 4) 4;
    if String.eqb tail "_ACK" then Ok true else Ok false.

(** The classification as the specification words it: cleared when the
    severity is exactly "OK" or its last four characters are "_ACK";
    anything shorter than four characters (other than "OK") is not
    cleared. *)
Definition ends_with_ACK (s : string) : bool :=
  (4 <=? String.length s)%nat &&
  String.eqb (String.substring (String.length s - 4) 4 s) "_ACK".

Definition IsCleared_spec (s : string) : bool :=
  String.eqb s "OK" || ends_with_ACK s.

(** ** AlarmStatusEntry (alarmstatusentry.cpp)

    [time_t] is a signed 64-bit integer holding seconds; it is kept as a
    [Z]. The sums [time + timeout] of the code stay far inside the 64-bit
    range for real clock values, so they are written without wrap-around. *)

Record AlarmStatusEntry : Type := mkAlarmStatusEntry {
  pvname : string;
  severity : string;
  status : string;
  triggertime : Z;
  desktopNotificationSent : bool;
  emailNotificationSent : bool
}.

(** The three-argument constructor; [now] is the value of
    [std::time(nullptr)] when the entry is built. *)
Definition newAlarmStatusEntry (pv sev st : string) (now : Z)
  : AlarmStatusEntry :=
  mkAlarmStatusEntry pv sev st now false false.

Definition update (self newdata : AlarmStatusEntry) : AlarmStatusEntry :=
  if triggertime self <? triggertime newdata then
    mkAlarmStatusEntry (pvname self) (severity newdata) (status newdata)
      (triggertime self) (desktopNotificationSent self)
      (emailNotificationSent self)
  else self.

Definition setDesktopNotificationSent (self : AlarmStatusEntry) (b : bool)
  : AlarmStatusEntry :=
  mkAlarmStatusEntry (pvname self) (severity self) (status self)
    (triggertime self) b (emailNotificationSent self).

Definition setEmailNotificationSent (self : AlarmStatusEntry) (b : bool)
  : AlarmStatusEntry :=
  mkAlarmStatusEntry (pvname self) (severity self) (status self)
    (triggertime self) (desktopNotificationSent self) b.

(** ** AlarmConfiguration

    The three timeouts are [unsigned int] seconds, read again from the
    configuration singleton at every use. *)

Record AlarmConfiguration : Type := mkAlarmConfiguration {
  getLaboratoryNotificationTimeout : N;
  getDesktopNotificationTimeout : N;
  getEMailNotificationTimeout : N
}.

(** ** AlarmServerConnector (alarmserverconnector.cpp) *)

(** [std::numeric_limits<long int>::min()]. *)
Definition noAlarmActive : Z := - 2 ^ 63.

Record AlarmServerConnector : Type := mkAlarmServerConnector {
  desktopVersion : bool;
  activateBeedo : bool;
  statusmap : gmap string AlarmStatusEntry;
  runwatcher : bool;
  flashlighton : bool;
  oldestAlarm : Z
}.

Definition with_statusmap (c : AlarmServerConnector)
    (m : gmap string AlarmStatusEntry) : AlarmServerConnector :=
  mkAlarmServerConnector (desktopVersion c) (activateBeedo c) m
    (runwatcher c) (flashlighton c) (oldestAlarm c).

Definition with_oldestAlarm (c : AlarmServerConnector) (t : Z)
  : AlarmServerConnector :=
  mkAlarmServerConnector (desktopVersion c) (activateBeedo c) (statusmap c)
    (runwatcher c) (flashlighton c) t.

Definition with_flashlighton (c : AlarmServerConnector) (b : bool)
  : AlarmServerConnector :=
  mkAlarmServerConnector (desktopVersion c) (activateBeedo c) (statusmap c)
    (runwatcher c) b (oldestAlarm c).

(** What the connector asks of its collaborators. The two send actions
    are the detached threads started with the selected alarms. *)
Inductive action : Type :=
  | BeedoStart
  | BeedoStop
  | FlashLightSwitchOn
  | FlashLightSwitchOff
  | SendDesktopNotification (alarms : list AlarmStatusEntry)
  | SendEMailNotification (alarms : list AlarmStatusEntry).

(** ** CMSClient: the constructor (cmsclient.cpp)

    What the ActiveMQ library answers to the calls of the constructor, in
    the order of the calls: [None] when the call goes through, the text
    of the exception when it throws. The library start-up throws a
    [std::runtime_error]; the connection (factory and connection), its
    start (start and exception listener, outside any try block) and the
    session (session, topic, consumer and message listener) throw a
    [cms::CMSException]. *)
Record ActiveMQ : Type := mkActiveMQ {
  initializeLibrary : option string;
  createConnection : option string;
  startConnection : option string;
  createSession : option string
}.

(** Every catch block of the constructor cleans up and throws the
    exception on. *)
Definition newCMSClient (mq : ActiveMQ) : result unit :=
  match initializeLibrary mq with
  | Some what => Throw (runtime_error what)
  | None =>
      match createConnection mq with
      | Some message => Throw (CMSException message)
      | None =>
          match startConnection mq with
          | Some message => Throw (CMSException message)
          | None =>
              match createSession mq with
              | Some message => Throw (CMSException message)
              | None => Ok tt
              end
          end
      end
  end.

(** The quotation mark. *)
Definition dquote : string := String (Ascii.ascii_of_nat 34) EmptyString.

(** The text of the [std::logic_error] of the constructor, with its
    quotation marks around the word beedo. *)
Definition beedo_error : string :=
  String.append "The "
    (String.append dquote
       (String.append "beedo"
          (String.append dquote
             " optoacoustic alarm can only be used in desktop mode!"))).

(** The constructor. The member [_cmsclient] is built in the initialiser
    list, before the body tests the two flags: an exception of its
    constructor leaves the connector's constructor as it is. The two
    threads the initialiser list starts are the sources of the tick
    events below. *)
Definition newAlarmServerConnector (mq : ActiveMQ) (desktop beedo : bool)
  : result AlarmServerConnector :=
  do _cmsclient <- newCMSClient mq;
  if negb desktop && beedo then Throw (logic_error beedo_error)
  else
    Ok (mkAlarmServerConnector desktop beedo ∅ true false noAlarmActive).

Definition getNumberOfAlarms (c : AlarmServerConnector) : nat :=
  size (statusmap c).

Definition notifyStatusChange (c : AlarmServerConnector)
    (st : AlarmStatusEntry) : result AlarmServerConnector :=
  let name := pvname st in
  let entry := statusmap c !! name in
  do cleared <- checkSeverityString (severity st);
  if cleared then
    match entry with
    | Some _ => Ok (with_statusmap c (delete name (statusmap c)))
    | None => Ok c
    end
  else
    let c1 :=
      match entry with
      | None => with_statusmap c (<[name := st]> (statusmap c))
      | Some e => with_statusmap c (<[name := update e st]> (statusmap c))
      end in
    if oldestAlarm c1 =? noAlarmActive
    then Ok (with_oldestAlarm c1 (triggertime st))
    else Ok c1.

(** The selection loop shared by the two prepare functions: walk the map
    once and, for every entry that [due] accepts, apply [mark] to the
    entry in the map and push a copy of the marked entry to the vector
    [alarmsToUse]. *)
Definition select_body (due : AlarmStatusEntry -> bool)
    (mark : AlarmStatusEntry -> AlarmStatusEntry)
    (acc : gmap string AlarmStatusEntry * list AlarmStatusEntry)
    (i : string * AlarmStatusEntry)
  : gmap string AlarmStatusEntry * list AlarmStatusEntry :=
  if due i.2 then (<[i.1 := mark i.2]> acc.1, acc.2 ++ [mark i.2])
  else acc.

Definition select_loop (due : AlarmStatusEntry -> bool)
    (mark : AlarmStatusEntry -> AlarmStatusEntry)
    (m : gmap string AlarmStatusEntry)
  : gmap string AlarmStatusEntry * list AlarmStatusEntry :=
  foldl (select_body due mark) (m, []) (map_to_list m).

(** The setter calls of the two loops on the entry under the iterator:
    [setDesktopNotificationSent(true)] and [setEmailNotificationSent(true)]. *)
Definition desktopSent (e : AlarmStatusEntry) : AlarmStatusEntry :=
  setDesktopNotificationSent e true.

Definition emailSent (e : AlarmStatusEntry) : AlarmStatusEntry :=
  setEmailNotificationSent e true.

(** The two conditions of the desktop loop: the alarm is older than the
    timeout and no desktop notification was sent for it. *)
Definition desktopDue (cfg : AlarmConfiguration) (now : Z)
    (e : AlarmStatusEntry) : bool :=
  (triggertime e + Z.of_N (getDesktopNotificationTimeout cfg) <=? now)
  && negb (desktopNotificationSent e).

(** The condition of the e-mail loop; the test on the trigger time is
    commented out in the source. *)
Definition emailDue (e : AlarmStatusEntry) : bool :=
  negb (emailNotificationSent e).

Definition prepareDesktopNotification (c : AlarmServerConnector)
    (cfg : AlarmConfiguration) (now : Z)
  : AlarmServerConnector * list action :=
  if (getDesktopNotificationTimeout cfg =? 0)%N then (c, [])
  else
    let '(m, alarmsToUse) :=
      select_loop (desktopDue cfg now) desktopSent (statusmap c) in
    (with_statusmap c m,
     if (0 <? length alarmsToUse)%nat
     then [SendDesktopNotification alarmsToUse] else []).

Definition prepareEMailNotification (c : AlarmServerConnector)
    (cfg : AlarmConfiguration)
  : AlarmServerConnector * list action :=
  if desktopVersion c then (c, [])
  else if (getEMailNotificationTimeout cfg =? 0)%N then (c, [])
  else
    let '(m, alarmsToUse) :=
      select_loop emailDue emailSent (statusmap c) in
    (with_statusmap c m,
     if (0 <? length alarmsToUse)%nat
     then [SendEMailNotification alarmsToUse] else []).

(** [checkStatusMap] is three statements in a row; each is given a name
    here. First: an empty map with a stale oldest-alarm time resets the
    time and stops the Beedo engine. *)
Definition checkStatusMap_reset (c : AlarmServerConnector)
  : AlarmServerConnector * list action :=
  if (size (statusmap c) =? 0)%nat && negb (oldestAlarm c =? noAlarmActive)
  then (with_oldestAlarm c noAlarmActive,
        if activateBeedo c then [BeedoStop] else [])
  else (c, []).

(** Second: the desktop notification, once the oldest alarm is older than
    the desktop timeout. *)
Definition checkStatusMap_desktop (c : AlarmServerConnector)
    (cfg : AlarmConfiguration) (now : Z)
  : AlarmServerConnector * list action :=
  if negb (size (statusmap c) =? 0)%nat
     && (oldestAlarm c + Z.of_N (getDesktopNotificationTimeout cfg) <=? now)
  then
    let '(c', a) := prepareDesktopNotification c cfg now in
    (c', a ++ (if activateBeedo c' then [BeedoStart] else []))
  else (c, []).

(** Third: the e-mail notification, once the oldest alarm is older than
    the e-mail timeout. *)
Definition checkStatusMap_email (c : AlarmServerConnector)
    (cfg : AlarmConfiguration) (now : Z)
  : AlarmServerConnector * list action :=
  if negb (size (statusmap c) =? 0)%nat
     && (oldestAlarm c + Z.of_N (getEMailNotificationTimeout cfg) <=? now)
  then prepareEMailNotification c cfg
  else (c, []).

Definition checkStatusMap (c : AlarmServerConnector)
    (cfg : AlarmConfiguration) (now : Z)
  : AlarmServerConnector * list action :=
  let '(c1, a1) := checkStatusMap_reset c in
  let '(c2, a2) := checkStatusMap_desktop c1 cfg now in
  let '(c3, a3) := checkStatusMap_email c2 cfg now in
  (c3, a1 ++ a2 ++ a3).

Definition switchFlashLightOn (c : AlarmServerConnector)
    (cfg : AlarmConfiguration) : AlarmServerConnector * list action :=
  if (getLaboratoryNotificationTimeout cfg =? 0)%N then (c, [])
  else (with_flashlighton c true, [FlashLightSwitchOn]).

Definition switchFlashLightOff (c : AlarmServerConnector)
    (cfg : AlarmConfiguration) : AlarmServerConnector * list action :=
  if (getLaboratoryNotificationTimeout cfg =? 0)%N then (c, [])
  else (with_flashlighton c false, [FlashLightSwitchOff]).

(** One pass through the loop of [operateFlashLight]. In the desktop
    version the function returns before the loop, so nothing happens. *)
Definition operateFlashLight_iteration (c : AlarmServerConnector)
    (cfg : AlarmConfiguration) (now : Z)
  : AlarmServerConnector * list action :=
  if desktopVersion c then (c, [])
  else
    let '(c1, a1) :=
      if negb (flashlighton c)
         && negb (size (statusmap c) =? 0)%nat
         && (oldestAlarm c + Z.of_N (getLaboratoryNotificationTimeout cfg)
             <=? now)
      then switchFlashLightOn c cfg
      else (c, []) in
    let '(c2, a2) :=
      if flashlighton c1 && (size (statusmap c1) =? 0)%nat
      then switchFlashLightOff c1 cfg
      else (c1, []) in
    (c2, a1 ++ a2).

(** ** The running service

    The connector is driven by three sources: messages forwarded by the
    CMS client, the watcher thread and the flash light thread, each
    holding the map for the length of one call. An event is one such
    call, with the configuration it reads and the value [std::time]
    returns during it; both are taken as constant within the call. *)
Inductive event : Type :=
  | Report (st : AlarmStatusEntry)
  | WatcherTick (cfg : AlarmConfiguration) (now : Z)
  | FlashLightTick (cfg : AlarmConfiguration) (now : Z).

Definition step (c : AlarmServerConnector) (ev : event)
  : result (AlarmServerConnector * list action) :=
  match ev with
  | Report st => do c' <- notifyStatusChange c st; Ok (c', [])
  | WatcherTick cfg now => Ok (checkStatusMap c cfg now)
  | FlashLightTick cfg now => Ok (operateFlashLight_iteration c cfg now)
  end.

(** A run collects the actions up to the end of the events or up to the
    first exception. An exception ends the run: it leaves
    [notifyStatusChange] into [CMSClient::onMessage], which is
    [noexcept]. *)
Fixpoint run (c : AlarmServerConnector) (evs : list event)
  : list action * result AlarmServerConnector :=
  match evs with
  | [] => ([], Ok c)
  | ev :: evs' =>
      match step c ev with
      | Throw e => ([], Throw e)
      | Ok (c', acts) =>
          let '(acts', r) := run c' evs' in (acts ++ acts', r)
      end
  end.

(** The connector right after a successful construction. *)
Definition fresh (desktop beedo : bool) : AlarmServerConnector :=
  mkAlarmServerConnector desktop beedo ∅ true false noAlarmActive.

(** The entries of the map in iteration order, without their keys. A
    [std::map] iterates in key order, a [gmap] in an order of its own;
    the batches below are therefore only read through their members. *)
Definition entries (m : gmap string AlarmStatusEntry)
  : list AlarmStatusEntry :=
  (map_to_list m).*2.

(** What the selection loop does to one entry of the map. *)
Definition mark_if_due (due : AlarmStatusEntry -> bool)
    (mark : AlarmStatusEntry -> AlarmStatusEntry) (e : AlarmStatusEntry)
  : AlarmStatusEntry :=
  if due e then mark e else e.

(** The entry a non-cleared report leaves in the map: the report itself
    for a new PV, the updated entry for a known one. *)
Definition stored (c : AlarmServerConnector) (st : AlarmStatusEntry)
  : AlarmStatusEntry :=
  match statusmap c !! pvname st with
  | None => st
  | Some e => update e st
  end.

(** [keys_ok]: every entry is stored under its own PV name. *)
Definition keys_ok (c : AlarmServerConnector) : Prop :=
  map_Forall (fun k e => pvname e = k) (statusmap c).

(** [grows e e']: [e'] is [e] up to notification flags that went from
    false to true. *)
Definition grows (e e' : AlarmStatusEntry) : Prop :=
  pvname e' = pvname e /\ severity e' = severity e
  /\ status e' = status e /\ triggertime e' = triggertime e
  /\ (desktopNotificationSent e = true -> desktopNotificationSent e' = true)
  /\ (emailNotificationSent e = true -> emailNotificationSent e' = true).

(** [ages e e']: [e'] is the same record as [e] at a later time: same PV,
    same trigger time, and no notification flag went back to false. *)
Definition ages (e e' : AlarmStatusEntry) : Prop :=
  pvname e' = pvname e /\ triggertime e' = triggertime e
  /\ (desktopNotificationSent e = true -> desktopNotificationSent e' = true)
  /\ (emailNotificationSent e = true -> emailNotificationSent e' = true).

(** A report that erases the entry of [pv]. *)
Definition clears (pv : string) (ev : event) : Prop :=
  match ev with
  | Report st => pvname st = pv /\ checkSeverityString (severity st) = Ok true
  | _ => False
  end.

(** Marking the desktop notification of [pv] as sent: the setter call of
    the desktop loop on the entry stored for [pv]; nothing happens when
    the PV has no entry. *)
Definition markDesktopSent (pv : string) (c : AlarmServerConnector)
  : AlarmServerConnector :=
  with_statusmap c (alter desktopSent pv (statusmap c)).

(** An event that reads a laboratory timeout of 0, if it reads one. *)
Definition lab_disabled (ev : event) : Prop :=
  match ev with
  | FlashLightTick cfg _ => getLaboratoryNotificationTimeout cfg = 0%N
  | _ => True
  end.

(** [same_alarms m m']: the same PVs are in alarm, and each entry only
    grew. *)
Definition same_alarms (m m' : gmap string AlarmStatusEntry) : Prop :=
  forall k, option_Forall2 grows (m !! k) (m' !! k).

(** The alarms a batch names. *)
Definition names (alarms : list AlarmStatusEntry) : list string :=
  pvname <$> alarms.

(** A severity string that [std::string] can hold and that
    [checkSeverityString] classifies without an exception. *)
Definition representable (s : string) : Prop :=
  StdString.length s < StdString.size_max.

Definition classifiable (s : string) : Prop :=
  representable s /\ (s = "OK" \/ (4 <= String.length s)%nat).

(** ** The count as the specification words it

    The number of distinct PV names whose most recent report in the
    sequence has a severity that is not cleared. *)
Definition last_report (pv : string) (reports : list AlarmStatusEntry)
  : option AlarmStatusEntry :=
  last (filter (fun r => pvname r = pv) reports).

Definition live (reports : list AlarmStatusEntry) (pv : string) : Prop :=
  exists r, last_report pv reports = Some r
            /\ IsCleared_spec (severity r) = false.

#[local] Instance live_dec reports pv : Decision (live reports pv).
Proof.
  unfold live. destruct (last_report pv reports) as [r|].
  - destruct (IsCleared_spec (severity r)) eqn:E.
    + right. intros (r' & [= <-] & H). congruence.
    + left. eauto.
  - right. intros (r' & [=] & _).
Defined.

Definition live_ids (reports : list AlarmStatusEntry) : list string :=
  filter (live reports) (remove_dups (pvname <$> reports)).

Definition spec_count (reports : list AlarmStatusEntry) : nat :=
  length (live_ids reports).

(** The map tracks exactly the live PVs of the reports seen so far. *)
Definition tracks (c : AlarmServerConnector)
    (reports : list AlarmStatusEntry) : Prop :=
  forall pv, is_Some (statusmap c !! pv) <-> live reports pv.

(** ** AlarmStatusEntry: comparison

    [operator==] compares the six members one by one. *)
Definition AlarmStatusEntry_eq (self other : AlarmStatusEntry) : bool :=
  String.eqb (pvname self) (pvname other)
  && String.eqb (severity self) (severity other)
  && String.eqb (status self) (status other)
  && (triggertime self =? triggertime other)
  && Bool.eqb (desktopNotificationSent self) (desktopNotificationSent other)
  && Bool.eqb (emailNotificationSent self) (emailNotificationSent other).

(** ** Invariants of the running connector *)

(** No entry of the map carries a severity that
    [checkSeverityString] takes as cleared. *)
Definition only_active (c : AlarmServerConnector) : Prop :=
  map_Forall (fun _ e => checkSeverityString (severity e) = Ok false)
             (statusmap c).

(** The reports of a run carry trigger times that never go back, starting
    from [t]: the clock behind [std::time] is not set back. *)
Fixpoint clock_from (t : Z) (evs : list event) : Prop :=
  match evs with
  | [] => True
  | Report st :: evs' => t <= triggertime st /\ clock_from (triggertime st) evs'
  | _ :: evs' => clock_from t evs'
  end.

(** The oldest-alarm time is set and not later than the trigger time of
    any entry. *)
Definition oldest_covers (c : AlarmServerConnector) : Prop :=
  map_Forall (fun _ e => oldestAlarm c <> noAlarmActive
                         /\ oldestAlarm c <= triggertime e)
             (statusmap c).

(** [oldest_inv t c]: the invariant behind [oldest_covers] along a run
    whose next report comes at [t] or later. *)
Definition oldest_inv (t : Z) (c : AlarmServerConnector) : Prop :=
  noAlarmActive < t
  /\ (oldestAlarm c = noAlarmActive \/ oldestAlarm c <= t)
  /\ oldest_covers c.

(** ** What a watcher tick asks of the collaborators *)

(** The two set-level tests of [checkStatusMap]. *)
Definition desktop_test (c : AlarmServerConnector)
    (cfg : AlarmConfiguration) (now : Z) : bool :=
  negb (size (statusmap c) =? 0)%nat
  && (oldestAlarm c + Z.of_N (getDesktopNotificationTimeout cfg) <=? now).

Definition email_test (c : AlarmServerConnector)
    (cfg : AlarmConfiguration) (now : Z) : bool :=
  negb (size (statusmap c) =? 0)%nat
  && (oldestAlarm c + Z.of_N (getEMailNotificationTimeout cfg) <=? now).

(** The alarms the desktop loop selects from a map, and the map it
    leaves. *)
Definition desktop_selection (cfg : AlarmConfiguration) (now : Z)
    (m : gmap string AlarmStatusEntry) : list AlarmStatusEntry :=
  desktopSent <$> filter (fun e => desktopDue cfg now e = true) (entries m).

Definition desktop_marked (cfg : AlarmConfiguration) (now : Z)
    (m : gmap string AlarmStatusEntry) : gmap string AlarmStatusEntry :=
  mark_if_due (desktopDue cfg now) desktopSent <$> m.

Definition email_selection (m : gmap string AlarmStatusEntry)
  : list AlarmStatusEntry :=
  emailSent <$> filter (fun e => emailDue e = true) (entries m).

(** [when b a]: the call [a] if [b] holds, no call otherwise. *)
Definition when (b : bool) (a : action) : list action :=
  if b then [a] else [].

(** ** Counting notifications *)

(** How many desktop batches, and how many e-mail batches, name [pv]. *)
Definition in_desktop_batch (pv : string) (a : action) : bool :=
  match a with
  | SendDesktopNotification v => bool_decide (pv ∈ names v)
  | _ => false
  end.

Definition in_email_batch (pv : string) (a : action) : bool :=
  match a with
  | SendEMailNotification v => bool_decide (pv ∈ names v)
  | _ => false
  end.

Definition desktop_notifications (pv : string) (acts : list action) : nat :=
  length (filter (fun a => in_desktop_batch pv a = true) acts).

Definition email_notifications (pv : string) (acts : list action) : nat :=
  length (filter (fun a => in_email_batch pv a = true) acts).

(** How many reports of a run erase the entry of [pv] or would do so:
    reports for [pv] with a cleared severity. *)
Definition clearsb (pv : string) (ev : event) : bool :=
  match ev with
  | Report st =>
      bool_decide (pvname st = pv)
      && match checkSeverityString (severity st) with
         | Ok true => true
         | _ => false
         end
  | _ => false
  end.

Definition clearings (pv : string) (evs : list event) : nat :=
  length (filter (fun ev => clearsb pv ev = true) evs).

(** Whether the entry of [pv] is there with the flag [sent] set. *)
Definition flagged (sent : AlarmStatusEntry -> bool) (pv : string)
    (c : AlarmServerConnector) : bool :=
  match statusmap c !! pv with
  | Some e => sent e
  | None => false
  end.

(** ** The flash light seen from the relay

    [alternating on acts]: read from a light that is [on], the flash light
    calls in [acts] alternate: no switch-on while on, no switch-off while
    off. [light_after on acts] is the state the calls leave. *)
Fixpoint alternating (on : bool) (acts : list action) : Prop :=
  match acts with
  | [] => True
  | FlashLightSwitchOn :: r => on = false /\ alternating true r
  | FlashLightSwitchOff :: r => on = true /\ alternating false r
  | _ :: r => alternating on r
  end.

Fixpoint light_after (on : bool) (acts : list action) : bool :=
  match acts with
  | [] => on
  | FlashLightSwitchOn :: r => light_after true r
  | FlashLightSwitchOff :: r => light_after false r
  | _ :: r => light_after on r
  end.

Definition flash_call (a : action) : Prop :=
  a = FlashLightSwitchOn \/ a = FlashLightSwitchOff.

(** ** Beedo (beedo.cpp)

    [start_internal] and [stop_internal] on the flag [_go]: the new flag
    and the Qt signal emitted, if any. *)
Inductive beedo_signal : Type :=
  | signalPlay
  | signalStop.

Definition start_internal (go : bool) : bool * list beedo_signal :=
  if go then (go, []) else (true, [signalPlay]).

Definition stop_internal (go : bool) : bool * list beedo_signal :=
  if negb go then (go, []) else (false, [signalStop]).

(** Beedo fed with the calls of a connector: [Beedo::start()] and
    [Beedo::stop()] go to the two functions above, every other call is
    not for Beedo. *)
Fixpoint beedo_calls (go : bool) (acts : list action)
  : bool * list beedo_signal :=
  match acts with
  | [] => (go, [])
  | BeedoStart :: r =>
      let '(g, s) := start_internal go in
      let '(g', s') := beedo_calls g r in (g', s ++ s')
  | BeedoStop :: r =>
      let '(g, s) := stop_internal go in
      let '(g', s') := beedo_calls g r in (g', s ++ s')
  | _ :: r => beedo_calls go r
  end.

(** The signals alternate, starting from a video that is [playing]. *)
Fixpoint signals_alternate (playing : bool) (sigs : list beedo_signal)
  : Prop :=
  match sigs with
  | [] => True
  | signalPlay :: r => playing = false /\ signals_alternate true r
  | signalStop :: r => playing = true /\ signals_alternate false r
  end.

(** Whether the video plays after the signals. *)
Fixpoint playing_after (playing : bool) (sigs : list beedo_signal) : bool :=
  match sigs with
  | [] => playing
  | signalPlay :: r => playing_after true r
  | signalStop :: r => playing_after false r
  end.

(** ** std::string: find and replace *)

Module StdStringSearch.

(** [std::string::npos]. *)
Definition npos : Z := StdString.size_max - 1.

(** [s.find(str)]: the position of the first occurrence of [str] in [s],
    or [npos]. *)
Definition find (s str : string) : Z :=
  match String.index 0 str s with
  | Some n => Z.of_nat n
  | None => npos
  end.

(** [s.replace(pos, len, str)]: throws [std::out_of_range] when
    [pos > size()]; otherwise the [min(len, size() - pos)] characters
    from [pos] on give way to [str]. *)
Definition replace (s : string) (pos len : Z) (str : string)
  : result string :=
  if StdString.length s <? pos then Throw out_of_range
  else
    let n := Z.min len (StdString.length s - pos) in
    Ok (String.append (String.substring 0 (Z.to_nat pos) s)
          (String.append str
             (String.substring (Z.to_nat (pos + n))
                (Z.to_nat (StdString.length s - pos - n)) s))).

End StdStringSearch.

(** ** CMSClient::onMessage (cmsclient.cpp)

    A CMS message is a map message or one of the three other kinds; the
    items of a map message are taken as strings, as the alarm server
    sends them. *)
Inductive Message : Type :=
  | MapMessage (items : gmap string string)
  | NoMapMessage.

(** [now] is the value of [std::time] when the entry is built. The
    function is [noexcept]: an exception that leaves it ends the
    process. *)
Definition onMessage (c : AlarmServerConnector) (message : Message)
    (now : Z) : result AlarmServerConnector :=
  match message with
  | NoMapMessage => Ok c
  | MapMessage mapmessage =>
      match mapmessage !! "TEXT" with
      | None => Ok c
      | Some text =>
          if negb (String.eqb text "STATE") then Ok c
          else
            match mapmessage !! "NAME", mapmessage !! "SEVERITY",
                  mapmessage !! "STATUS" with
            | Some rawname, Some sev, Some st =>
                do name <- StdStringSearch.replace rawname
                             (StdStringSearch.find rawname "epics://") 8 "";
                notifyStatusChange c (newAlarmStatusEntry name sev st now)
            | _, _, _ => Ok c
            end
      end
  end.

(** A message that passes the filter of [onMessage]. *)
Definition relevant (message : Message) : Prop :=
  exists items, message = MapMessage items
    /\ items !! "TEXT" = Some "STATE"
    /\ is_Some (items !! "NAME") /\ is_Some (items !! "SEVERITY")
    /\ is_Some (items !! "STATUS").

(** ** AlarmServerConnector::sendDesktopNotification: the text *)

(** The line feed character. *)
Definition LF : string := String (Ascii.ascii_of_nat 10) EmptyString.

Definition alarmtext (alarm : list AlarmStatusEntry) : string :=
  foldl (fun text i => String.append text (String.append (pvname i) LF))
        (String.append "Alarm on this/these PV(s):" LF) alarm.

Fixpoint has_LF (s : string) : bool :=
  match s with
  | EmptyString => false
  | String ch s' => Ascii.eqb ch (Ascii.ascii_of_nat 10) || has_LF s'
  end.

(** The names of a list, one per line. *)
Fixpoint listing (l : list string) : string :=
  match l with
  | [] => EmptyString
  | n :: r => String.append n (String.append LF (listing r))
  end.

(** ** AlarmConfiguration::CreateConfigFileLocation

    [CONFIGFILELOCATION] is the compile-time default, [envvar] and [home]
    are what [getenv] returns for ALARMNOTIFICATIONSCONFIG and HOME. *)
Definition CreateConfigFileLocation (CONFIGFILELOCATION : string)
    (envvar home : option string) : result string :=
  match envvar with
  | Some v => Ok v
  | None =>
      match home with
      | Some h =>
          let conffile := CONFIGFILELOCATION in
          if negb (StdStringSearch.find conffile "~" =? StdStringSearch.npos)
          then StdStringSearch.replace conffile
                 (StdStringSearch.find conffile "~") 1 h
          else Ok conffile
      | None => Ok CONFIGFILELOCATION
      end
  end.

(** An ActiveMQ library whose calls all go through, and one whose broker
    cannot be reached. *)
Definition activemq_up : ActiveMQ := mkActiveMQ None None None None.

Definition activemq_down : ActiveMQ :=
  mkActiveMQ None (Some "Connection refused") None None.

(** ** A small running example

    A server with a desktop timeout of 5 s and an e-mail timeout of 10 s,
    no laboratory signal, and one alarm on pv2 raised at t = 0. *)
Definition example_cfg : AlarmConfiguration := mkAlarmConfiguration 0 5 10.

Definition example_alarm : AlarmStatusEntry :=
  newAlarmStatusEntry "pv2" "MAJOR" "ALARM" 0.

Definition example_server : AlarmServerConnector :=
  mkAlarmServerConnector false false {["pv2" := example_alarm]} true false 0.

Definition example_desktop : AlarmServerConnector :=
  mkAlarmServerConnector true false {["pv2" := example_alarm]} true false 0.

Definition example_events : list event :=
  [WatcherTick example_cfg 6;
   Report (newAlarmStatusEntry "pv2" "MINOR" "ALARM" 7);
   FlashLightTick example_cfg 8;
   WatcherTick example_cfg 11].

(** * Properties *)

(** ** Severity classification *)

Section Severity.

Lemma eqb_OK_false (s : string) : s <> "OK" -> String.eqb s "OK" = false.
Proof. intros H. by apply String.eqb_neq. Qed.

(** Below four characters [length() - 4] wraps around and [substr]
    throws. *)
Lemma checkSeverityString_short (s : string) :
  (String.length s < 4)%nat -> s <> "OK" ->
  checkSeverityString s = Throw out_of_range.
Proof.
  intros Hlen Hok. unfold checkSeverityString.
  rewrite eqb_OK_false by done.
  unfold StdString.substr, StdString.size_sub, StdString.length,
    StdString.size_max.
  replace ((Z.of_nat (String.length s) - 4) mod 2 ^ 64)
    with (Z.of_nat (String.length s) - 4 + 2 ^ 64).
  - destruct (Z.ltb_spec (Z.of_nat (String.length s))
                (Z.of_nat (String.length s) - 4 + 2 ^ 64)); [done | lia].
  - symmetry. rewrite <- (Z.mod_add _ 1) by lia.
    rewrite Z.mul_1_l. apply Z.mod_small. lia.
Qed.

(** From four characters on the last four are compared with "_ACK". *)
Lemma checkSeverityString_long (s : string) :
  representable s -> (4 <= String.length s)%nat -> s <> "OK" ->
  checkSeverityString s = Ok (ends_with_ACK s).
Proof.
  intros Hrep Hlen Hok. unfold checkSeverityString.
  rewrite eqb_OK_false by done.
  unfold representable, StdString.length, StdString.size_max in Hrep.
  unfold StdString.substr, StdString.size_sub, StdString.length,
    StdString.size_max, ends_with_ACK.
  rewrite Z.mod_small by lia.
  destruct (Z.ltb_spec (Z.of_nat (String.length s))
              (Z.of_nat (String.length s) - 4)); [lia |].
  cbn [bind].
  replace (Z.to_nat (Z.of_nat (String.length s) - 4))
    with (String.length s - 4)%nat by lia.
  replace (Z.to_nat
             (4 `min` (Z.of_nat (String.length s)
                       - (Z.of_nat (String.length s) - 4))))
    with 4%nat by lia.
  destruct (Nat.leb_spec 4 (String.length s)); [| lia].
  cbn [andb].
  by destruct (String.eqb _ "_ACK").
Qed.

(** On every severity the code classifies, it agrees with the
    specification. *)
Lemma checkSeverityString_classifiable (s : string) :
  classifiable s -> checkSeverityString s = Ok (IsCleared_spec s).
Proof.
  intros [Hrep Hs]. unfold IsCleared_spec.
  destruct (String.eqb_spec s "OK") as [-> | Hne]; [done |].
  destruct Hs as [? | Hlen]; [done |].
  by rewrite checkSeverityString_long.
Qed.

Lemma checkSeverityString_no_logic_error (s : string) (what : string) :
  checkSeverityString s <> Throw (logic_error what).
Proof.
  unfold checkSeverityString, StdString.substr.
  destruct (String.eqb s "OK"); [done |].
  destruct (_ <? _); cbn [bind]; [done |].
  by destruct (String.eqb _ "_ACK").
Qed.

End Severity.

(** C1. On the boundary inputs of the specification,
    [checkSeverityString] classifies "X_ACK" and "OK" as cleared and
    "NOT_OK" as not cleared, but on "", "A" and "ACK", which the
    specification wants classified as not cleared, it throws
    [std::out_of_range] instead of returning false. *)
Theorem C1_checkSeverityString_boundary :
  checkSeverityString <$> [""; "A"; "ACK"; "X_ACK"; "OK"; "NOT_OK"]
  = [Throw out_of_range; Throw out_of_range; Throw out_of_range;
     Ok true; Ok true; Ok false]
  /\ IsCleared_spec <$> [""; "A"; "ACK"; "X_ACK"; "OK"; "NOT_OK"]
     = [false; false; false; true; true; false].
Proof. split; reflexivity. Qed.

(** ** The selection loop *)

Section SelectLoop.

Variable due : AlarmStatusEntry -> bool.
Variable mark : AlarmStatusEntry -> AlarmStatusEntry.

(** The vector only grows by the marked copies of the accepted
    entries, in iteration order. *)
Lemma select_body_vector l a :
  (foldl (select_body due mark) a l).2
  = a.2 ++ (mark <$> filter (fun e => due e = true) l.*2).
Proof.
  revert a. induction l as [| [k e] l IH]; intros a.
  - cbn. by rewrite app_nil_r.
  - cbn [foldl]. rewrite IH, fmap_cons, filter_cons.
    unfold select_body. cbn [fst snd].
    destruct (due e) eqn:E.
    + rewrite decide_True by done. rewrite fmap_cons. cbn [fst snd].
      by rewrite <- app_assoc.
    + by rewrite decide_False by congruence.
Qed.

(** The map after the loop, key by key. *)
Lemma select_body_map l a k :
  NoDup l.*1 ->
  (foldl (select_body due mark) a l).1 !! k
  = match (list_to_map l : gmap string AlarmStatusEntry) !! k with
    | Some e => if due e then Some (mark e) else a.1 !! k
    | None => a.1 !! k
    end.
Proof.
  revert a.
  induction l as [| [k1 e1] l IH]; intros a Hnd.
  - cbn. by rewrite lookup_empty.
  - rewrite fmap_cons in Hnd. apply NoDup_cons in Hnd as [Hk1 Hnd].
    cbn [foldl list_to_map foldr uncurry]. rewrite IH by done.
    destruct (decide (k1 = k)) as [-> | Hne].
    + rewrite lookup_insert_eq.
      rewrite (not_elem_of_list_to_map_1 l k) by done.
      unfold select_body. cbn [fst snd].
      destruct (due e1); cbn [fst snd]; [by rewrite lookup_insert_eq | done].
    + rewrite lookup_insert_ne by done.
      assert ((select_body due mark a (k1, e1)).1 !! k = a.1 !! k)
        as ->; [| done].
      unfold select_body. cbn [fst snd].
      destruct (due e1); cbn [fst snd]; [by rewrite lookup_insert_ne | done].
Qed.

Lemma select_loop_spec (m : gmap string AlarmStatusEntry) :
  select_loop due mark m
  = (mark_if_due due mark <$> m,
     mark <$> filter (fun e => due e = true) (entries m)).
Proof.
  unfold select_loop.
  destruct (foldl _ _ _) as [m' v] eqn:E.
  f_equal.
  - apply map_eq. intros k.
    change m' with (m', v).1. rewrite <- E.
    rewrite select_body_map by apply NoDup_fst_map_to_list.
    rewrite list_to_map_to_list, lookup_fmap.
    unfold mark_if_due.
    destruct (m !! k) as [e |] eqn:Hk; cbn; [| done].
    by destruct (due e).
  - change v with (m', v).2. rewrite <- E.
    by rewrite select_body_vector.
Qed.

End SelectLoop.

(** ** The prepare functions in closed form *)

Section Prepare.

Lemma prepareDesktopNotification_eq c cfg now :
  prepareDesktopNotification c cfg now
  = if (getDesktopNotificationTimeout cfg =? 0)%N then (c, [])
    else
      let v := desktopSent <$> filter (fun e => desktopDue cfg now e = true)
                                      (entries (statusmap c)) in
      (with_statusmap c
         (mark_if_due (desktopDue cfg now) desktopSent <$> statusmap c),
       if (0 <? length v)%nat then [SendDesktopNotification v] else []).
Proof.
  unfold prepareDesktopNotification.
  destruct (_ =? _)%N; [done |].
  by rewrite select_loop_spec.
Qed.

Lemma prepareEMailNotification_eq c cfg :
  prepareEMailNotification c cfg
  = if desktopVersion c then (c, [])
    else if (getEMailNotificationTimeout cfg =? 0)%N then (c, [])
    else
      let v := emailSent <$> filter (fun e => emailDue e = true)
                                    (entries (statusmap c)) in
      (with_statusmap c (mark_if_due emailDue emailSent <$> statusmap c),
       if (0 <? length v)%nat then [SendEMailNotification v] else []).
Proof.
  unfold prepareEMailNotification.
  destruct (desktopVersion c); [done |].
  destruct (_ =? _)%N; [done |].
  by rewrite select_loop_spec.
Qed.

Lemma grows_refl e : grows e e.
Proof. by repeat split. Qed.

Lemma grows_trans e1 e2 e3 : grows e1 e2 -> grows e2 e3 -> grows e1 e3.
Proof.
  unfold grows. intros (?&?&?&?&?&?) (?&?&?&?&?&?).
  repeat split; try congruence; auto.
Qed.

Lemma same_alarms_refl m : same_alarms m m.
Proof.
  intros k. destruct (m !! k); constructor. apply grows_refl.
Qed.

Lemma same_alarms_trans m1 m2 m3 :
  same_alarms m1 m2 -> same_alarms m2 m3 -> same_alarms m1 m3.
Proof.
  intros H12 H23 k. specialize (H12 k). specialize (H23 k).
  destruct H12 as [e1 e2 G12 |]; inversion H23; subst; constructor.
  eauto using grows_trans.
Qed.

Lemma grows_mark_desktop due e : grows e (mark_if_due due desktopSent e).
Proof. unfold mark_if_due. destruct (due e); by repeat split. Qed.

Lemma grows_mark_email due e : grows e (mark_if_due due emailSent e).
Proof. unfold mark_if_due. destruct (due e); by repeat split. Qed.

Lemma same_alarms_fmap (f : AlarmStatusEntry -> AlarmStatusEntry) m :
  (forall e, grows e (f e)) -> same_alarms m (f <$> m).
Proof.
  intros Hf k. rewrite lookup_fmap.
  destruct (m !! k); constructor. apply Hf.
Qed.

Lemma same_alarms_size m m' : same_alarms m m' -> size m = size m'.
Proof.
  intros H. rewrite <- !size_dom. f_equal. apply set_eq. intros k.
  rewrite !elem_of_dom. specialize (H k).
  destruct H; split; intros [? ?]; by eauto.
Qed.

End Prepare.

(** ** The three statements of [checkStatusMap] *)

Section Watcher.

(** Membership in the short explicit action lists of this section. *)
Local Ltac in_actions :=
  cbn [fst snd app andb]; intros;
  repeat match goal with
         | H : _ ∈ [] |- _ => by apply elem_of_nil in H
         | H : _ ∈ _ :: _ |- _ => apply elem_of_cons in H as [-> | H]
         end;
  auto.

Lemma checkStatusMap_reset_cases c :
  checkStatusMap_reset c = (c, [])
  \/ (size (statusmap c) = 0%nat
      /\ (checkStatusMap_reset c).1 = with_oldestAlarm c noAlarmActive
      /\ forall a, a ∈ (checkStatusMap_reset c).2 -> a = BeedoStop).
Proof.
  unfold checkStatusMap_reset.
  destruct (Nat.eqb_spec (size (statusmap c)) 0) as [Hsz | Hsz];
    [| by left].
  destruct (negb _); [| by left].
  right. split; [done |]. split; [done |].
  destruct (activateBeedo c); in_actions.
Qed.

(** With a desktop timeout of 0 the map is left alone, but the Beedo
    engine is still started. *)
Lemma checkStatusMap_desktop_cases c cfg now :
  ((checkStatusMap_desktop c cfg now).1 = c
   /\ forall a, a ∈ (checkStatusMap_desktop c cfg now).2 -> a = BeedoStart)
  \/ (getDesktopNotificationTimeout cfg <> 0%N
      /\ (checkStatusMap_desktop c cfg now).1
         = with_statusmap c
             (mark_if_due (desktopDue cfg now) desktopSent <$> statusmap c)
      /\ forall a, a ∈ (checkStatusMap_desktop c cfg now).2 ->
           a = BeedoStart
           \/ a = SendDesktopNotification
                    (desktopSent <$>
                       filter (fun e => desktopDue cfg now e = true)
                              (entries (statusmap c)))).
Proof.
  unfold checkStatusMap_desktop.
  destruct (_ && _); [| left; split; [done | in_actions]].
  rewrite prepareDesktopNotification_eq.
  destruct (N.eqb_spec (getDesktopNotificationTimeout cfg) 0) as [Hz | Hz].
  - left. split; [done |]. destruct (activateBeedo c); in_actions.
  - right. split; [done |]. split; [done |].
    cbn [fst snd activateBeedo with_statusmap].
    destruct (0 <? length _)%nat, (activateBeedo c); in_actions.
Qed.

Lemma checkStatusMap_email_cases c cfg now :
  checkStatusMap_email c cfg now = (c, [])
  \/ (desktopVersion c = false
      /\ getEMailNotificationTimeout cfg <> 0%N
      /\ (checkStatusMap_email c cfg now).1
         = with_statusmap c
             (mark_if_due emailDue emailSent <$> statusmap c)
      /\ forall a, a ∈ (checkStatusMap_email c cfg now).2 ->
           a = SendEMailNotification
                 (emailSent <$> filter (fun e => emailDue e = true)
                                       (entries (statusmap c)))).
Proof.
  unfold checkStatusMap_email.
  destruct (_ && _); [| by left].
  rewrite prepareEMailNotification_eq.
  destruct (desktopVersion c); [by left |].
  destruct (N.eqb_spec (getEMailNotificationTimeout cfg) 0) as [Hz | Hz];
    [by left |].
  right. split; [done |]. split; [done |]. split; [done |].
  cbn [fst snd]. destruct (0 <? length _)%nat; in_actions.
Qed.


(** What a whole tick leaves untouched or only lets grow. *)
Lemma checkStatusMap_reset_frame c :
  let c' := (checkStatusMap_reset c).1 in
  statusmap c' = statusmap c /\ desktopVersion c' = desktopVersion c
  /\ activateBeedo c' = activateBeedo c
  /\ flashlighton c' = flashlighton c.
Proof.
  cbn. destruct (checkStatusMap_reset_cases c) as [-> | (_ & -> & _)];
    done.
Qed.

Lemma checkStatusMap_desktop_frame c cfg now :
  let c' := (checkStatusMap_desktop c cfg now).1 in
  same_alarms (statusmap c) (statusmap c')
  /\ desktopVersion c' = desktopVersion c
  /\ activateBeedo c' = activateBeedo c
  /\ flashlighton c' = flashlighton c
  /\ oldestAlarm c' = oldestAlarm c.
Proof.
  cbn.
  destruct (checkStatusMap_desktop_cases c cfg now)
    as [[-> _] | (_ & -> & _)].
  - split; [apply same_alarms_refl | done].
  - split; [| done]. cbn.
    apply same_alarms_fmap. intros e. apply grows_mark_desktop.
Qed.

Lemma checkStatusMap_email_frame c cfg now :
  let c' := (checkStatusMap_email c cfg now).1 in
  same_alarms (statusmap c) (statusmap c')
  /\ desktopVersion c' = desktopVersion c
  /\ activateBeedo c' = activateBeedo c
  /\ flashlighton c' = flashlighton c
  /\ oldestAlarm c' = oldestAlarm c.
Proof.
  cbn.
  destruct (checkStatusMap_email_cases c cfg now)
    as [-> | (_ & _ & -> & _)].
  - split; [apply same_alarms_refl | done].
  - split; [| done]. cbn.
    apply same_alarms_fmap. intros e. apply grows_mark_email.
Qed.

(** [checkStatusMap] as the composition of its statements. *)
Lemma checkStatusMap_eq c cfg now :
  checkStatusMap c cfg now
  = let r1 := checkStatusMap_reset c in
    let r2 := checkStatusMap_desktop r1.1 cfg now in
    let r3 := checkStatusMap_email r2.1 cfg now in
    (r3.1, r1.2 ++ r2.2 ++ r3.2).
Proof.
  unfold checkStatusMap.
  destruct (checkStatusMap_reset c) as [c1 a1]. cbn.
  destruct (checkStatusMap_desktop c1 cfg now) as [c2 a2]. cbn.
  by destruct (checkStatusMap_email c2 cfg now) as [c3 a3].
Qed.

Lemma checkStatusMap_frame c cfg now :
  let c' := (checkStatusMap c cfg now).1 in
  same_alarms (statusmap c) (statusmap c')
  /\ desktopVersion c' = desktopVersion c
  /\ activateBeedo c' = activateBeedo c
  /\ flashlighton c' = flashlighton c.
Proof.
  cbn. rewrite checkStatusMap_eq. cbn.
  destruct (checkStatusMap_reset_frame c) as (M1 & D1 & B1 & F1).
  destruct (checkStatusMap_desktop_frame (checkStatusMap_reset c).1 cfg now)
    as (M2 & D2 & B2 & F2 & _).
  destruct (checkStatusMap_email_frame
              (checkStatusMap_desktop (checkStatusMap_reset c).1 cfg now).1
              cfg now) as (M3 & D3 & B3 & F3 & _).
  cbn in *. rewrite M1 in M2.
  split; [eauto using same_alarms_trans |].
  repeat split; congruence.
Qed.

(** The oldest-alarm time after a tick: kept, or reset on an empty
    map. *)
Lemma checkStatusMap_oldestAlarm c cfg now :
  let c' := (checkStatusMap c cfg now).1 in
  oldestAlarm c' = oldestAlarm c
  \/ (size (statusmap c) = 0%nat /\ oldestAlarm c' = noAlarmActive).
Proof.
  cbn. rewrite checkStatusMap_eq. cbn.
  destruct (checkStatusMap_desktop_frame (checkStatusMap_reset c).1 cfg now)
    as (_ & _ & _ & _ & O2).
  destruct (checkStatusMap_email_frame
              (checkStatusMap_desktop (checkStatusMap_reset c).1 cfg now).1
              cfg now) as (_ & _ & _ & _ & O3).
  cbn in *. rewrite O3, O2.
  destruct (checkStatusMap_reset_cases c) as [-> | (Hsz & -> & _)];
    [by left | by right].
Qed.

End Watcher.

(** ** notifyStatusChange *)

Section Notify.

Lemma with_statusmap_id c : with_statusmap c (statusmap c) = c.
Proof. by destruct c. Qed.

Lemma notifyStatusChange_throw c st e :
  checkSeverityString (severity st) = Throw e ->
  notifyStatusChange c st = Throw e.
Proof. intros H. unfold notifyStatusChange. by rewrite H. Qed.

(** A cleared severity erases the entry of the PV, if there is one,
    and touches nothing else. *)
Lemma notifyStatusChange_cleared c st :
  checkSeverityString (severity st) = Ok true ->
  notifyStatusChange c st
  = Ok (with_statusmap c (delete (pvname st) (statusmap c))).
Proof.
  intros H. unfold notifyStatusChange. rewrite H. cbn [bind].
  destruct (statusmap c !! pvname st) eqn:E; [done |].
  by rewrite delete_id, with_statusmap_id.
Qed.

Lemma notifyStatusChange_active c st :
  checkSeverityString (severity st) = Ok false ->
  notifyStatusChange c st
  = Ok (with_oldestAlarm
          (with_statusmap c (<[pvname st := stored c st]> (statusmap c)))
          (if oldestAlarm c =? noAlarmActive then triggertime st
           else oldestAlarm c)).
Proof.
  intros H. unfold notifyStatusChange, stored. rewrite H. cbn [bind].
  destruct (statusmap c !! pvname st) eqn:E; cbn [oldestAlarm with_statusmap];
    destruct (oldestAlarm c =? noAlarmActive); try done;
    by destruct c.
Qed.

(** The three outcomes of a report. *)
Lemma notifyStatusChange_cases c st :
  (exists e, checkSeverityString (severity st) = Throw e
             /\ notifyStatusChange c st = Throw e)
  \/ (checkSeverityString (severity st) = Ok true
      /\ notifyStatusChange c st
         = Ok (with_statusmap c (delete (pvname st) (statusmap c))))
  \/ (checkSeverityString (severity st) = Ok false
      /\ notifyStatusChange c st
         = Ok (with_oldestAlarm
                 (with_statusmap c
                    (<[pvname st := stored c st]> (statusmap c)))
                 (if oldestAlarm c =? noAlarmActive then triggertime st
                  else oldestAlarm c))).
Proof.
  destruct (checkSeverityString (severity st)) as [[|] | e] eqn:E.
  - right. left. eauto using notifyStatusChange_cleared.
  - right. right. eauto using notifyStatusChange_active.
  - left. eauto using notifyStatusChange_throw.
Qed.

End Notify.

(** ** Runs *)

Section Runs.

Lemma run_app c evs1 evs2 :
  run c (evs1 ++ evs2)
  = match run c evs1 with
    | (a1, Ok c1) => let '(a2, r) := run c1 evs2 in (a1 ++ a2, r)
    | (a1, Throw e) => (a1, Throw e)
    end.
Proof.
  revert c. induction evs1 as [| ev evs1 IH]; intros c; cbn [run app].
  - by destruct (run c evs2).
  - destruct (step c ev) as [[c' acts] | e]; [| done].
    rewrite IH. destruct (run c' evs1) as [a1 [c1 | e]]; [| done].
    destruct (run c1 evs2) as [a2 r]. by rewrite app_assoc.
Qed.

Lemma run_snoc c evs ev :
  run c (evs ++ [ev])
  = match run c evs with
    | (a1, Ok c1) =>
        match step c1 ev with
        | Ok (c2, a2) => (a1 ++ a2, Ok c2)
        | Throw e => (a1, Throw e)
        end
    | (a1, Throw e) => (a1, Throw e)
    end.
Proof.
  rewrite run_app. destruct (run c evs) as [a1 [c1 | e]]; [| done].
  cbn [run]. destruct (step c1 ev) as [[c2 a2] | e]; [| by rewrite app_nil_r].
  by rewrite app_nil_r.
Qed.

End Runs.

(** ** Counting the alarms *)

Section Count.

Lemma last_report_snoc pv l r :
  last_report pv (l ++ [r])
  = if decide (pvname r = pv) then Some r else last_report pv l.
Proof.
  unfold last_report. rewrite filter_app, filter_cons, filter_nil.
  destruct (decide (pvname r = pv)).
  - by rewrite last_snoc.
  - by rewrite app_nil_r.
Qed.

Lemma last_report_elem pv l r :
  last_report pv l = Some r -> pvname r = pv /\ r ∈ l.
Proof.
  unfold last_report. intros H. apply last_Some_elem_of in H.
  apply list_elem_of_filter in H. tauto.
Qed.

Lemma elem_of_live_ids reports pv :
  pv ∈ live_ids reports <-> live reports pv.
Proof.
  unfold live_ids. rewrite list_elem_of_filter, elem_of_remove_dups.
  split; [tauto |]. intros H. split; [done |].
  destruct H as (r & Hr & _). apply last_report_elem in Hr as [<- Hr].
  by apply list_elem_of_fmap_2.
Qed.

Lemma NoDup_live_ids reports : NoDup (live_ids reports).
Proof. apply NoDup_filter, NoDup_remove_dups. Qed.

Lemma tracks_count c reports :
  tracks c reports -> getNumberOfAlarms c = spec_count reports.
Proof.
  intros H. unfold getNumberOfAlarms, spec_count.
  rewrite <- size_dom.
  replace (dom (statusmap c)) with
    (list_to_set (live_ids reports) : gset string).
  - apply size_list_to_set, NoDup_live_ids.
  - apply set_eq. intros pv.
    rewrite elem_of_list_to_set, elem_of_live_ids, elem_of_dom.
    symmetry. apply H.
Qed.

Lemma tracks_step c reports st :
  classifiable (severity st) -> tracks c reports ->
  exists c', notifyStatusChange c st = Ok c' /\ tracks c' (reports ++ [st]).
Proof.
  intros Hcl Htr.
  pose proof (checkSeverityString_classifiable _ Hcl) as Hsev.
  destruct (IsCleared_spec (severity st)) eqn:Hspec.
  - eexists. split; [by apply notifyStatusChange_cleared |].
    intros pv. unfold live. rewrite last_report_snoc. cbn.
    destruct (decide (pvname st = pv)) as [<- | Hne].
    + rewrite lookup_delete_eq. split; [by intros [? ?] |].
      intros (r & [= <-] & Hr). congruence.
    + rewrite lookup_delete_ne by done. apply Htr.
  - eexists. split; [by apply notifyStatusChange_active |].
    intros pv. unfold live. rewrite last_report_snoc. cbn.
    destruct (decide (pvname st = pv)) as [<- | Hne].
    + rewrite lookup_insert_eq. split; [eauto | eauto].
    + rewrite lookup_insert_ne by done. apply Htr.
Qed.

Lemma tracks_fresh desktop beedo : tracks (fresh desktop beedo) [].
Proof.
  intros pv. cbn. rewrite lookup_empty. split; [by intros [? ?] |].
  by intros (r & [=] & _).
Qed.

(** On severities the code can classify, the count after any sequence
    of reports is the count of the specification. *)
Lemma count_classifiable desktop beedo reports :
  Forall (fun st => classifiable (severity st)) reports ->
  exists c, run (fresh desktop beedo) (Report <$> reports) = ([], Ok c)
            /\ getNumberOfAlarms c = spec_count reports.
Proof.
  intros Hall.
  cut (exists c, run (fresh desktop beedo) (Report <$> reports) = ([], Ok c)
                 /\ tracks c reports).
  { intros (c & Hrun & Htr). eauto using tracks_count. }
  induction reports as [| st reports IH] using rev_ind.
  - exists (fresh desktop beedo). split; [done | apply tracks_fresh].
  - apply Forall_app in Hall as [Hall Hst].
    apply Forall_cons in Hst as [Hst _].
    destruct (IH Hall) as (c & Hrun & Htr).
    destruct (tracks_step c reports st Hst Htr) as (c' & Hstep & Htr').
    exists c'. split; [| done].
    rewrite fmap_app. cbn [fmap list_fmap]. rewrite run_snoc, Hrun.
    cbn [step]. by rewrite Hstep.
Qed.

End Count.

(** ** The flash light loop *)

Section FlashLight.

Lemma switchFlashLightOn_disabled c cfg :
  getLaboratoryNotificationTimeout cfg = 0%N ->
  switchFlashLightOn c cfg = (c, []).
Proof. intros H. unfold switchFlashLightOn. by rewrite H. Qed.

Lemma switchFlashLightOff_disabled c cfg :
  getLaboratoryNotificationTimeout cfg = 0%N ->
  switchFlashLightOff c cfg = (c, []).
Proof. intros H. unfold switchFlashLightOff. by rewrite H. Qed.

(** With a laboratory timeout of 0 one pass of the loop does nothing. *)
Lemma operateFlashLight_iteration_disabled c cfg now :
  getLaboratoryNotificationTimeout cfg = 0%N ->
  operateFlashLight_iteration c cfg now = (c, []).
Proof.
  intros H. unfold operateFlashLight_iteration.
  destruct (desktopVersion c); [done |].
  rewrite switchFlashLightOn_disabled by done.
  destruct (_ && _ && _); rewrite switchFlashLightOff_disabled by done;
    by destruct (_ && _).
Qed.

(** The loop only ever writes the flash light flag. *)
Lemma operateFlashLight_iteration_frame c cfg now :
  let c' := (operateFlashLight_iteration c cfg now).1 in
  statusmap c' = statusmap c /\ oldestAlarm c' = oldestAlarm c
  /\ desktopVersion c' = desktopVersion c
  /\ activateBeedo c' = activateBeedo c.
Proof.
  cbn. unfold operateFlashLight_iteration, switchFlashLightOn,
    switchFlashLightOff.
  destruct (desktopVersion c) eqn:D; [done |].
  destruct (_ && _ && _), (getLaboratoryNotificationTimeout cfg =? 0)%N;
    cbn [flashlighton with_flashlighton statusmap fst snd];
    repeat match goal with |- context [if ?b then _ else _] => destruct b end;
    done.
Qed.

End FlashLight.

(** ** What one event does to the entries of the map *)

Section Steps.

Lemma update_frame e st :
  pvname (update e st) = pvname e
  /\ triggertime (update e st) = triggertime e
  /\ desktopNotificationSent (update e st) = desktopNotificationSent e
  /\ emailNotificationSent (update e st) = emailNotificationSent e.
Proof. unfold update. by destruct (_ <? _). Qed.

(** [update] copies severity and status exactly for a strictly later
    trigger time. *)
Lemma update_newer e st :
  triggertime e < triggertime st ->
  severity (update e st) = severity st /\ status (update e st) = status st.
Proof.
  intros H. unfold update.
  by destruct (Z.ltb_spec (triggertime e) (triggertime st)); [| lia].
Qed.

Lemma update_not_newer e st :
  triggertime st <= triggertime e -> update e st = e.
Proof.
  intros H. unfold update.
  by destruct (Z.ltb_spec (triggertime e) (triggertime st)); [lia |].
Qed.

Lemma ages_refl e : ages e e.
Proof. by repeat split. Qed.

Lemma grows_ages e e' : grows e e' -> ages e e'.
Proof. unfold grows, ages. tauto. Qed.

Lemma update_ages e st : ages e (update e st).
Proof.
  destruct (update_frame e st) as (? & ? & ? & ?).
  repeat split; congruence.
Qed.

Lemma same_alarms_lookup m m' k e e' :
  same_alarms m m' -> m !! k = Some e -> m' !! k = Some e' -> grows e e'.
Proof.
  intros H Hk Hk'. specialize (H k). rewrite Hk, Hk' in H.
  by inversion H.
Qed.

Lemma same_alarms_present m m' k e :
  same_alarms m m' -> m !! k = Some e ->
  exists e', m' !! k = Some e' /\ grows e e'.
Proof.
  intros H Hk. specialize (H k). rewrite Hk in H.
  inversion H; subst. eauto.
Qed.

Lemma same_alarms_keys_ok c c' :
  same_alarms (statusmap c) (statusmap c') -> keys_ok c -> keys_ok c'.
Proof.
  intros H Hok k e' Hk'. specialize (H k). rewrite Hk' in H.
  inversion H as [e ? G Hk |]; subst. symmetry in Hk.
  destruct G as (-> & _). by apply (Hok k e).
Qed.

(** Whatever the event, a record that is in the map before and after
    it has only aged. *)
Lemma step_ages c ev c' acts k e e' :
  step c ev = Ok (c', acts) ->
  statusmap c !! k = Some e -> statusmap c' !! k = Some e' ->
  ages e e'.
Proof.
  intros Hstep Hk Hk'. destruct ev as [st | cfg now | cfg now]; cbn in Hstep.
  - destruct (notifyStatusChange_cases c st)
      as [(x & _ & Hn) | [(_ & Hn) | (_ & Hn)]];
      rewrite Hn in Hstep; cbn in Hstep; [done | |];
      injection Hstep as <- <-; cbn in Hk'.
    + destruct (decide (pvname st = k)) as [<- | Hne].
      * by rewrite lookup_delete_eq in Hk'.
      * rewrite lookup_delete_ne in Hk' by done.
        replace e' with e by congruence. apply ages_refl.
    + destruct (decide (pvname st = k)) as [<- | Hne].
      * rewrite lookup_insert_eq in Hk'. injection Hk' as <-.
        unfold stored. rewrite Hk. apply update_ages.
      * rewrite lookup_insert_ne in Hk' by done.
        replace e' with e by congruence. apply ages_refl.
  - injection Hstep as Hc.
    destruct (checkStatusMap_frame c cfg now) as (Hm & _).
    rewrite Hc in Hm. cbn in Hm.
    eauto using grows_ages, same_alarms_lookup.
  - injection Hstep as Hc.
    destruct (operateFlashLight_iteration_frame c cfg now) as (Hm & _).
    rewrite Hc in Hm. cbn in Hm.
    replace e' with e by congruence. apply ages_refl.
Qed.

(** A report leaves the flags of an entry it updates exactly as they
    were. *)
Lemma report_keeps_flags c st c' k e e' :
  notifyStatusChange c st = Ok c' ->
  statusmap c !! k = Some e -> statusmap c' !! k = Some e' ->
  desktopNotificationSent e' = desktopNotificationSent e
  /\ emailNotificationSent e' = emailNotificationSent e.
Proof.
  intros Hn Hk Hk'.
  destruct (notifyStatusChange_cases c st)
    as [(x & _ & Hn') | [(_ & Hn') | (_ & Hn')]];
    rewrite Hn' in Hn; [done | |]; injection Hn as <-; cbn in Hk'.
  - destruct (decide (pvname st = k)) as [<- | Hne].
    + by rewrite lookup_delete_eq in Hk'.
    + rewrite lookup_delete_ne in Hk' by done.
      by replace e' with e by congruence.
  - destruct (decide (pvname st = k)) as [<- | Hne].
    + rewrite lookup_insert_eq in Hk'. injection Hk' as <-.
      unfold stored. rewrite Hk.
      destruct (update_frame e st) as (_ & _ & ? & ?). done.
    + rewrite lookup_insert_ne in Hk' by done.
      by replace e' with e by congruence.
Qed.

Lemma step_keys_ok c ev c' acts :
  step c ev = Ok (c', acts) -> keys_ok c -> keys_ok c'.
Proof.
  intros Hstep Hok. destruct ev as [st | cfg now | cfg now]; cbn in Hstep.
  - destruct (notifyStatusChange_cases c st)
      as [(x & _ & Hn) | [(_ & Hn) | (_ & Hn)]];
      rewrite Hn in Hstep; cbn in Hstep; [done | |];
      injection Hstep as <- <-; unfold keys_ok; cbn.
    + by apply map_Forall_delete.
    + apply map_Forall_insert_2; [| done].
      unfold stored. destruct (statusmap c !! pvname st) as [e |] eqn:E;
        [| done].
      destruct (update_frame e st) as (-> & _). by apply (Hok _ e).
  - injection Hstep as Hc.
    destruct (checkStatusMap_frame c cfg now) as (Hm & _).
    rewrite Hc in Hm. by eapply same_alarms_keys_ok.
  - injection Hstep as Hc.
    destruct (operateFlashLight_iteration_frame c cfg now) as (Hm & _).
    rewrite Hc in Hm. cbn in Hm. unfold keys_ok. by rewrite Hm.
Qed.

(** Every connector a run reaches from a fresh one stores its entries
    under their own PV names. *)
Lemma keys_ok_fresh desktop beedo : keys_ok (fresh desktop beedo).
Proof. apply map_Forall_empty. Qed.

Lemma run_keys_ok evs : forall c c',
  keys_ok c -> (run c evs).2 = Ok c' -> keys_ok c'.
Proof.
  induction evs as [| ev evs IH]; intros c c' Hok Hrun; cbn [run] in Hrun.
  - by injection Hrun as <-.
  - destruct (step c ev) as [[c1 acts] |] eqn:Hstep; [| done].
    destruct (run c1 evs) as [acts' r] eqn:Hr. cbn in Hrun. subst r.
    apply (IH c1 c'); [by eapply step_keys_ok | by rewrite Hr].
Qed.

(** An entry stays in the map unless a cleared report erases it. *)
Lemma step_present c ev c' acts k e :
  step c ev = Ok (c', acts) -> statusmap c !! k = Some e ->
  ~ clears k ev -> is_Some (statusmap c' !! k).
Proof.
  intros Hstep Hk Hcl. destruct ev as [st | cfg now | cfg now]; cbn in Hstep.
  - destruct (notifyStatusChange_cases c st)
      as [(x & _ & Hn) | [(Hs & Hn) | (_ & Hn)]];
      rewrite Hn in Hstep; cbn in Hstep; [done | |];
      injection Hstep as <- <-; cbn.
    + rewrite lookup_delete_ne; [by eauto |].
      intros Heq. apply Hcl. by split.
    + destruct (decide (pvname st = k)) as [<- | Hne].
      * rewrite lookup_insert_eq. eauto.
      * rewrite lookup_insert_ne by done. eauto.
  - injection Hstep as Hc.
    destruct (checkStatusMap_frame c cfg now) as (Hm & _).
    rewrite Hc in Hm. cbn in Hm.
    destruct (same_alarms_present _ _ _ _ Hm Hk) as (e' & -> & _). eauto.
  - injection Hstep as Hc.
    destruct (operateFlashLight_iteration_frame c cfg now) as (Hm & _).
    rewrite Hc in Hm. cbn in Hm. rewrite Hm. eauto.
Qed.

End Steps.

(** * The specification, sentence by sentence *)

(** Scenario A: an alarm on pv1 is counted, its acknowledgement removes
    it again. *)
Example scenario_A :
  let alarm := newAlarmStatusEntry "pv1" "MAJOR" "ALARM" 10 in
  let ack := newAlarmStatusEntry "pv1" "MAJOR_ACK" "ALARM" 12 in
  (exists c, run (fresh false false) [Report alarm] = ([], Ok c)
             /\ getNumberOfAlarms c = 1%nat)
  /\ (exists c, run (fresh false false) [Report alarm; Report ack] = ([], Ok c)
                /\ getNumberOfAlarms c = 0%nat).
Proof. split; eexists; (split; [reflexivity | reflexivity]). Qed.

(** A cleared report for a PV that is not in the map changes nothing. *)
Lemma cleared_untracked_noop c st :
  checkSeverityString (severity st) = Ok true ->
  statusmap c !! pvname st = None ->
  notifyStatusChange c st = Ok c.
Proof.
  intros Hs Hk. rewrite notifyStatusChange_cleared by done.
  by rewrite delete_id, with_statusmap_id.
Qed.

(** C2. A report whose severity is shorter than four characters and not
    "OK" is not cleared for the specification, so its PV counts as one
    live alarm; in the code the report ends in [std::out_of_range] and the
    map still holds no alarm. *)
Theorem C2_count_short_severity :
  let reports := [newAlarmStatusEntry "pv1" "A" "ALARM" 10] in
  spec_count reports = 1%nat
  /\ run (fresh false false) (Report <$> reports) = ([], Throw out_of_range)
  /\ notifyStatusChange (fresh false false)
       (newAlarmStatusEntry "pv1" "A" "ALARM" 10) = Throw out_of_range
  /\ getNumberOfAlarms (fresh false false) = 0%nat.
Proof. repeat split; reflexivity. Qed.

(** A cleared report never touches the oldest-alarm time, whatever is
    left in the map. *)
Lemma removal_keeps_oldestAlarm c st c' :
  checkSeverityString (severity st) = Ok true ->
  notifyStatusChange c st = Ok c' -> oldestAlarm c' = oldestAlarm c.
Proof.
  intros Hs Hn. rewrite notifyStatusChange_cleared in Hn by done.
  by injection Hn as <-.
Qed.

(** Scenario D: alarms at t=0 and t=2; after the first is cleared the
    oldest-alarm time is still 0, not the trigger time 2 of the alarm that
    is left, and a third alarm at t=9 does not move it either. *)
Example scenario_D :
  let a := newAlarmStatusEntry "pvA" "MAJOR" "ALARM" 0 in
  let b := newAlarmStatusEntry "pvB" "MINOR" "ALARM" 2 in
  let a_ok := newAlarmStatusEntry "pvA" "OK" "OK" 5 in
  let d := newAlarmStatusEntry "pvD" "MAJOR" "ALARM" 9 in
  exists c1 c2,
    run (fresh false false) [Report a; Report b; Report a_ok] = ([], Ok c1)
    /\ oldestAlarm c1 = 0 /\ triggertime <$> entries (statusmap c1) = [2]
    /\ run c1 [Report d] = ([], Ok c2) /\ oldestAlarm c2 = 0.
Proof. do 2 eexists. repeat split; reflexivity. Qed.

(** C3. The oldest-alarm time changes in two ways only: a non-cleared
    report met it at the no-alarm value and stored the report's trigger
    time, or a watcher tick met an empty map and reset it to the no-alarm
    value. A cleared report (a removal) never changes it, so it is not
    recomputed when the oldest alarm goes and others remain. *)
Theorem C3_oldestAlarm_changes c ev c' acts :
  step c ev = Ok (c', acts) ->
  oldestAlarm c' <> oldestAlarm c ->
  (exists st, ev = Report st
              /\ checkSeverityString (severity st) = Ok false
              /\ oldestAlarm c = noAlarmActive
              /\ oldestAlarm c' = triggertime st)
  \/ (exists cfg now, ev = WatcherTick cfg now
                      /\ size (statusmap c) = 0%nat
                      /\ oldestAlarm c' = noAlarmActive).
Proof.
  intros Hstep Hne. destruct ev as [st | cfg now | cfg now]; cbn in Hstep.
  - left. exists st.
    destruct (notifyStatusChange_cases c st)
      as [(x & _ & Hn) | [(_ & Hn) | (Hs & Hn)]];
      rewrite Hn in Hstep; cbn in Hstep; [done | |];
      injection Hstep as <- <-; cbn in Hne; [done |].
    cbn. destruct (Z.eqb_spec (oldestAlarm c) noAlarmActive); [done |].
    done.
  - right. exists cfg, now. injection Hstep as Hc.
    destruct (checkStatusMap_oldestAlarm c cfg now) as [Ho | [Hsz Ho]];
      rewrite Hc in Ho; cbn in Ho; [done |].
    done.
  - injection Hstep as Hc.
    destruct (operateFlashLight_iteration_frame c cfg now) as (_ & Ho & _).
    rewrite Hc in Ho. cbn in Ho. done.
Qed.

Lemma C3_oldestAlarm_changes_witness :
  let st := newAlarmStatusEntry "pv1" "MAJOR" "ALARM" 100 in
  (exists st', Report st = Report st'
               /\ checkSeverityString (severity st') = Ok false
               /\ oldestAlarm (fresh false false) = noAlarmActive
               /\ 100 = triggertime st')
  \/ (exists cfg now, Report st = WatcherTick cfg now
                      /\ size (statusmap (fresh false false)) = 0%nat
                      /\ 100 = noAlarmActive).
Proof.
  apply (C3_oldestAlarm_changes (fresh false false)
           (Report (newAlarmStatusEntry "pv1" "MAJOR" "ALARM" 100))
           (mkAlarmServerConnector false false
              (<["pv1" := newAlarmStatusEntry "pv1" "MAJOR" "ALARM" 100]> ∅)
              true false 100)
           []).
  - reflexivity.
  - vm_compute. discriminate.
Defined.

(** C4, as the claim states it: both flags true would have to fail and
    every other combination would have to succeed. With the CMS client
    connected the constructor accepts both flags true and rejects Beedo
    without desktop mode; with the broker out of reach it fails for flags
    that are both false, and not by the configuration error. *)
Lemma C4_constructor_counterexample :
  newAlarmServerConnector activemq_up true true = Ok (fresh true true)
  /\ newAlarmServerConnector activemq_up false true
     = Throw (logic_error beedo_error)
  /\ newAlarmServerConnector activemq_down false false
     = Throw (CMSException "Connection refused").
Proof. repeat split; reflexivity. Qed.

(** C4, amended. The constructor ends in one of three ways. The
    constructor of the CMS client throws: its [std::runtime_error] or
    [cms::CMSException] leaves the constructor, whatever the flags. The
    CMS client is built and the Beedo flag (second parameter) is set
    without the desktop flag (first parameter): the constructor throws
    its [std::logic_error]. The CMS client is built and the flags are any
    other combination: the result is the fresh connector. No later event
    ends in a [std::logic_error]: the only exception a step can end in is
    [std::out_of_range]. *)
Theorem C4_constructor_logic_error (mq : ActiveMQ) (desktop beedo : bool)
    (c : AlarmServerConnector) (ev : event) :
  ((exists e, newCMSClient mq = Throw e
              /\ ((exists what, e = runtime_error what)
                  \/ (exists message, e = CMSException message))
              /\ newAlarmServerConnector mq desktop beedo = Throw e)
   \/ (newCMSClient mq = Ok tt /\ desktop = false /\ beedo = true
       /\ newAlarmServerConnector mq desktop beedo
          = Throw (logic_error beedo_error))
   \/ (newCMSClient mq = Ok tt /\ (desktop = true \/ beedo = false)
       /\ newAlarmServerConnector mq desktop beedo
          = Ok (fresh desktop beedo)))
  /\ ((exists r, step c ev = Ok r) \/ step c ev = Throw out_of_range).
Proof.
  split.
  - unfold newAlarmServerConnector.
    destruct (newCMSClient mq) as [[] | e] eqn:Hcms; cbn [bind].
    + right. destruct desktop, beedo; cbn; auto 6.
    + left. exists e. split; [done |]. split; [| done].
      unfold newCMSClient in Hcms.
      destruct (initializeLibrary mq); [injection Hcms as <-; eauto |].
      destruct (createConnection mq); [injection Hcms as <-; eauto |].
      destruct (startConnection mq); [injection Hcms as <-; eauto |].
      destruct (createSession mq); [injection Hcms as <-; eauto | done].
  - destruct ev as [st | cfg now | cfg now]; cbn; eauto.
    destruct (notifyStatusChange_cases c st)
      as [(x & Hs & ->) | [(_ & ->) | (_ & ->)]]; cbn; eauto.
    right. f_equal. revert Hs. unfold checkSeverityString, StdString.substr.
    destruct (String.eqb (severity st) "OK"); [done |].
    destruct (_ <? _); cbn [bind]; [by intros [= <-] |].
    by destruct (String.eqb _ "_ACK").
Qed.


(** C5. An entry created in one second and a report for the same PV
    built in the same second: the report is not older than the entry, yet
    [update] keeps the old severity and status, and so does the map. *)
Theorem C5_update_same_second :
  let old := newAlarmStatusEntry "pv1" "MINOR" "LOW" 100 in
  let new := newAlarmStatusEntry "pv1" "MAJOR" "LOLO" 100 in
  triggertime old <= triggertime new
  /\ update old new = old
  /\ exists c, run (fresh false false) [Report old; Report new] = ([], Ok c)
               /\ statusmap c !! "pv1" = Some old.
Proof.
  cbn zeta. split; [cbn; lia |]. split; [reflexivity |].
  eexists. split; reflexivity.
Qed.

(** ** Who sends what *)

Section Actions.

Lemma operateFlashLight_iteration_actions c cfg now a :
  a ∈ (operateFlashLight_iteration c cfg now).2 ->
  a = FlashLightSwitchOn \/ a = FlashLightSwitchOff.
Proof.
  unfold operateFlashLight_iteration, switchFlashLightOn,
    switchFlashLightOff.
  destruct (desktopVersion c); [by intros ?%elem_of_nil |].
  destruct (_ && _ && _), (getLaboratoryNotificationTimeout cfg =? 0)%N;
    cbn [flashlighton with_flashlighton statusmap fst snd];
    repeat match goal with |- context [if ?b then _ else _] => destruct b end;
    cbn; rewrite ?elem_of_cons, ?elem_of_nil; tauto.
Qed.




End Actions.



(** ** The desktop statement and the e-mail flags *)

Section DesktopKeepsEmail.

(** The desktop statement of a tick rewrites entries without touching
    their PV name or their e-mail flag. *)
Lemma checkStatusMap_desktop_map c cfg now :
  exists g : AlarmStatusEntry -> AlarmStatusEntry,
    statusmap (checkStatusMap_desktop c cfg now).1 = g <$> statusmap c
    /\ forall e, pvname (g e) = pvname e
                 /\ emailNotificationSent (g e) = emailNotificationSent e.
Proof.
  destruct (checkStatusMap_desktop_cases c cfg now)
    as [[-> _] | (_ & -> & _)].
  - exists id. by rewrite map_fmap_id.
  - exists (mark_if_due (desktopDue cfg now) desktopSent).
    split; [done |]. intros e. unfold mark_if_due.
    by destruct (desktopDue cfg now e).
Qed.

Lemma checkStatusMap_no_FlashLight c cfg now :
  FlashLightSwitchOn ∉ (checkStatusMap c cfg now).2.
Proof.
  rewrite checkStatusMap_eq. cbn [snd]. rewrite !elem_of_app.
  intros [H | [H | H]].
  - destruct (checkStatusMap_reset_cases c) as [E | (_ & _ & Ha)].
    + rewrite E in H. by apply elem_of_nil in H.
    + by apply Ha in H.
  - destruct (checkStatusMap_desktop_cases (checkStatusMap_reset c).1
                cfg now) as [[_ Ha] | (_ & _ & Ha)];
      apply Ha in H; [done | by destruct H].
  - destruct (checkStatusMap_email_cases
                (checkStatusMap_desktop (checkStatusMap_reset c).1 cfg now).1
                cfg now) as [E | (_ & _ & _ & Ha)].
    + rewrite E in H. by apply elem_of_nil in H.
    + by apply Ha in H.
Qed.

Lemma notifyStatusChange_flashlighton c st c' :
  notifyStatusChange c st = Ok c' -> flashlighton c' = flashlighton c.
Proof.
  intros Hn.
  destruct (notifyStatusChange_cases c st)
    as [(x & _ & Hn') | [(_ & Hn') | (_ & Hn')]];
    rewrite Hn' in Hn; [done | |]; by injection Hn as <-.
Qed.

(** An event that reads a laboratory timeout of 0 neither sets the
    flash light flag nor switches the flash light on. *)
Lemma step_lab_disabled c ev c' acts :
  lab_disabled ev -> step c ev = Ok (c', acts) ->
  flashlighton c' = flashlighton c /\ FlashLightSwitchOn ∉ acts.
Proof.
  intros Hlab Hstep. destruct ev as [st | cfg now | cfg now]; cbn in *.
  - destruct (notifyStatusChange c st) as [c1 |] eqn:Hn; cbn in Hstep;
      [| done].
    injection Hstep as <- <-.
    split; [by eapply notifyStatusChange_flashlighton | apply not_elem_of_nil].
  - injection Hstep as Hc.
    destruct (checkStatusMap_frame c cfg now) as (_ & _ & _ & Hf).
    pose proof (checkStatusMap_no_FlashLight c cfg now) as Ha.
    rewrite Hc in Hf, Ha. done.
  - rewrite operateFlashLight_iteration_disabled in Hstep by done.
    injection Hstep as <- <-. split; [done | apply not_elem_of_nil].
Qed.

Lemma run_lab_disabled evs : forall c,
  flashlighton c = false -> Forall lab_disabled evs ->
  (FlashLightSwitchOn ∉ (run c evs).1)
  /\ forall c', (run c evs).2 = Ok c' -> flashlighton c' = false.
Proof.
  induction evs as [| ev evs IH]; intros c Hoff Hall.
  - split; [apply not_elem_of_nil |]. cbn. by intros c' [= <-].
  - apply Forall_cons in Hall as [Hev Hall]. cbn [run].
    destruct (step c ev) as [[c1 acts] |] eqn:Hstep.
    + destruct (step_lab_disabled _ _ _ _ Hev Hstep) as [Hf Ha].
      rewrite Hoff in Hf. destruct (IH c1 Hf Hall) as [IHa IHc].
      destruct (run c1 evs) as [acts' r]. cbn in *.
      split; [| done]. rewrite elem_of_app. tauto.
    + split; [apply not_elem_of_nil | by cbn].
Qed.

End DesktopKeepsEmail.

(** C8. With a laboratory timeout of 0 at every pass of the flash light
    loop, no run from a state with the flash light off ever switches it
    on, and the flash light flag is false after every prefix of the run,
    whatever alarms are reported and whenever the passes happen. *)
Theorem C8_lab_timeout_zero c evs :
  flashlighton c = false -> Forall lab_disabled evs ->
  (FlashLightSwitchOn ∉ (run c evs).1)
  /\ forall n c', (run c (take n evs)).2 = Ok c' -> flashlighton c' = false.
Proof.
  intros Hoff Hall. split.
  - by apply run_lab_disabled.
  - intros n. apply run_lab_disabled; [done |]. by apply Forall_take.
Qed.

Lemma C8_lab_timeout_zero_witness :
  (FlashLightSwitchOn ∉ (run example_server example_events).1)
  /\ forall n c', (run example_server (take n example_events)).2 = Ok c' ->
                  flashlighton c' = false.
Proof.
  apply (C8_lab_timeout_zero example_server example_events).
  - reflexivity.
  - repeat constructor.
Defined.

(** C9. Across any single event a record that stays in the map keeps
    its PV name and its trigger time, and a notification flag that is
    true stays true; across a report both flags are exactly as before, so
    an update changes severity and status at most, and every record
    stored under another PV name is left as it is. *)
Theorem C9_update_frame c ev c' acts k e e' :
  step c ev = Ok (c', acts) ->
  statusmap c !! k = Some e -> statusmap c' !! k = Some e' ->
  pvname e' = pvname e /\ triggertime e' = triggertime e
  /\ (desktopNotificationSent e = true -> desktopNotificationSent e' = true)
  /\ (emailNotificationSent e = true -> emailNotificationSent e' = true)
  /\ (forall st, ev = Report st ->
        desktopNotificationSent e' = desktopNotificationSent e
        /\ emailNotificationSent e' = emailNotificationSent e
        /\ (k <> pvname st -> e' = e)).
Proof.
  intros Hstep Hk Hk'.
  destruct (step_ages _ _ _ _ _ _ _ Hstep Hk Hk') as (Hp & Ht & Hd & He).
  repeat split; try done; intros; subst ev; cbn in Hstep;
    destruct (notifyStatusChange c st) as [c1 |] eqn:Hn; cbn in Hstep;
    try done; injection Hstep as <- <-.
  - by destruct (report_keeps_flags _ _ _ _ _ _ Hn Hk Hk').
  - by destruct (report_keeps_flags _ _ _ _ _ _ Hn Hk Hk').
  - destruct (notifyStatusChange_cases c st)
      as [(x & _ & Hn') | [(_ & Hn') | (_ & Hn')]];
      rewrite Hn' in Hn; [done | |]; injection Hn as <-; cbn in Hk'.
    + rewrite lookup_delete_ne in Hk' by done. congruence.
    + rewrite lookup_insert_ne in Hk' by done. congruence.
Qed.

Lemma C9_update_frame_witness :
  let st := newAlarmStatusEntry "pv2" "MINOR" "HIGH" 7 in
  let e := setDesktopNotificationSent example_alarm true in
  let e' := mkAlarmStatusEntry "pv2" "MINOR" "HIGH" 0 true false in
  pvname e' = pvname e /\ triggertime e' = triggertime e
  /\ (desktopNotificationSent e = true -> desktopNotificationSent e' = true)
  /\ (emailNotificationSent e = true -> emailNotificationSent e' = true)
  /\ (forall st', Report st = Report st' ->
        desktopNotificationSent e' = desktopNotificationSent e
        /\ emailNotificationSent e' = emailNotificationSent e
        /\ ("pv2" <> pvname st' -> e' = e)).
Proof.
  apply (C9_update_frame (markDesktopSent "pv2" example_server)
           (Report (newAlarmStatusEntry "pv2" "MINOR" "HIGH" 7))
           (mkAlarmServerConnector false false
              {["pv2" := mkAlarmStatusEntry "pv2" "MINOR" "HIGH" 0 true false]}
              true false 0)
           [] "pv2").
  - vm_compute. reflexivity.
  - reflexivity.
  - reflexivity.
Defined.

(** C10. In the desktop version [prepareEMailNotification] returns at
    once: the connector is unchanged and nothing is sent; and a whole
    watcher tick sends no e-mail batch and leaves every e-mail flag as it
    was, whatever the map, the timeouts and the clock. *)
Theorem C10_desktop_no_email c cfg :
  desktopVersion c = true ->
  prepareEMailNotification c cfg = (c, [])
  /\ forall now,
       (forall v, SendEMailNotification v ∉ (checkStatusMap c cfg now).2)
       /\ forall k,
            emailNotificationSent <$> statusmap (checkStatusMap c cfg now).1 !! k
            = emailNotificationSent <$> statusmap c !! k.
Proof.
  intros Hd. split.
  { unfold prepareEMailNotification. by rewrite Hd. }
  intros now. rewrite checkStatusMap_eq. cbn [fst snd].
  destruct (checkStatusMap_reset_frame c) as (Hm1 & Hd1 & _).
  set (c1 := (checkStatusMap_reset c).1) in *.
  destruct (checkStatusMap_desktop_frame c1 cfg now) as (_ & Hd2 & _).
  destruct (checkStatusMap_desktop_map c1 cfg now) as (g & Hm2 & Hg).
  set (c2 := (checkStatusMap_desktop c1 cfg now).1) in *.
  cbn in Hm1, Hd1, Hd2.
  assert (E3 : checkStatusMap_email c2 cfg now = (c2, [])).
  { destruct (checkStatusMap_email_cases c2 cfg now) as [E | (Hd3 & _)];
      [done | congruence]. }
  rewrite E3. cbn [fst snd]. split.
  - intros v. rewrite app_nil_r, elem_of_app. intros [H | H].
    + destruct (checkStatusMap_reset_cases c) as [E | (_ & _ & Ha)].
      * rewrite E in H. by apply elem_of_nil in H.
      * by apply Ha in H.
    + destruct (checkStatusMap_desktop_cases c1 cfg now)
        as [[_ Ha] | (_ & _ & Ha)]; apply Ha in H; [done | by destruct H].
  - intros k. rewrite Hm2, Hm1, lookup_fmap.
    destruct (statusmap c !! k) as [e |]; cbn; [| done].
    by destruct (Hg e) as [_ ->].
Qed.

Lemma C10_desktop_no_email_witness :
  prepareEMailNotification example_desktop example_cfg
  = (example_desktop, [])
  /\ forall now,
       (forall v, SendEMailNotification v
                  ∉ (checkStatusMap example_desktop example_cfg now).2)
       /\ forall k,
            emailNotificationSent
              <$> statusmap (checkStatusMap example_desktop example_cfg now).1
                    !! k
            = emailNotificationSent <$> statusmap example_desktop !! k.
Proof.
  apply (C10_desktop_no_email example_desktop example_cfg). reflexivity.
Defined.



(** The asymmetry between the two channels: with alarms raised at t = 0
    and t = 9 and a tick at t = 10, the desktop batch (timeout 5) names
    the first alarm only, the e-mail batch (timeout 10) names both. *)
Example email_ignores_trigger_time :
  let a := newAlarmStatusEntry "pvA" "MAJOR" "ALARM" 0 in
  let b := newAlarmStatusEntry "pvB" "MINOR" "ALARM" 9 in
  exists c c' v1 v2,
    run (fresh false false) [Report a; Report b] = ([], Ok c)
    /\ checkStatusMap c example_cfg 10
       = (c', [SendDesktopNotification v1; SendEMailNotification v2])
    /\ names v1 = ["pvA"] /\ names v2 = ["pvA"; "pvB"].
Proof. do 4 eexists. repeat split; vm_compute; reflexivity. Qed.

(** Scenario B: desktop timeout 5 s, an alarm on pv2 at t = 0. The tick
    at t = 4 sends nothing, the tick at t = 6 sends a batch with pv2, the
    tick at t = 7 sends nothing again. *)
Example scenario_B :
  let c0 := fresh false false in
  exists c1 c2 c3 c4 v,
    notifyStatusChange c0 example_alarm = Ok c1
    /\ checkStatusMap c1 example_cfg 4 = (c2, [])
    /\ checkStatusMap c2 example_cfg 6 = (c3, [SendDesktopNotification v])
    /\ names v = ["pv2"]
    /\ checkStatusMap c3 example_cfg 7 = (c4, []).
Proof. do 5 eexists. repeat split; vm_compute; reflexivity. Qed.


(** * Beyond the specification: what else the code guarantees *)

(** ** AlarmStatusEntry *)

(** X1. [operator==] answers true exactly for two entries that agree in
    all six members. *)
Theorem AlarmStatusEntry_eq_spec (a b : AlarmStatusEntry) :
  AlarmStatusEntry_eq a b = true <-> a = b.
Proof.
  unfold AlarmStatusEntry_eq. destruct a, b. cbn.
  rewrite !andb_true_iff, !String.eqb_eq, Z.eqb_eq, !Bool.eqb_true_iff.
  split; [intros [[[[[-> ->] ->] ->] ->] ->]; done |].
  intros [= -> -> -> -> -> ->]. done.
Qed.

(** X2. After any sequence of updates an entry still has its PV name,
    its trigger time and its two flags; its severity and status are those
    of the last update with a strictly later trigger time, or its own
    when there is none. *)
Theorem update_sequence (e : AlarmStatusEntry) (l : list AlarmStatusEntry) :
  let r := foldl update e l in
  pvname r = pvname e /\ triggertime r = triggertime e
  /\ desktopNotificationSent r = desktopNotificationSent e
  /\ emailNotificationSent r = emailNotificationSent e
  /\ (severity r, status r)
     = match last (filter (fun n => triggertime e < triggertime n) l) with
       | Some n => (severity n, status n)
       | None => (severity e, status e)
       end.
Proof.
  cbn zeta. induction l as [| n l IH] using rev_ind; [done |].
  rewrite foldl_snoc, filter_app, filter_cons, filter_nil.
  destruct IH as (Hp & Ht & Hd & He & Hs).
  destruct (update_frame (foldl update e l) n) as (Hp' & Ht' & Hd' & He').
  repeat split; try congruence.
  destruct (decide (triggertime e < triggertime n)) as [Hlt | Hge].
  - rewrite last_snoc.
    destruct (update_newer (foldl update e l) n) as [-> ->]; [lia | done].
  - rewrite app_nil_r, update_not_newer by lia. done.
Qed.

(** ** The map of alarms *)

Lemma update_severity e st :
  (severity (update e st) = severity st /\ status (update e st) = status st)
  \/ update e st = e.
Proof. unfold update. destruct (_ <? _); [by left | by right]. Qed.

Lemma step_only_active c ev c' acts :
  step c ev = Ok (c', acts) -> only_active c -> only_active c'.
Proof.
  intros Hstep Hok. destruct ev as [st | cfg now | cfg now]; cbn in Hstep.
  - destruct (notifyStatusChange_cases c st)
      as [(x & _ & Hn) | [(_ & Hn) | (Hs & Hn)]];
      rewrite Hn in Hstep; cbn in Hstep; [done | |];
      injection Hstep as <- <-; unfold only_active; cbn.
    + by apply map_Forall_delete.
    + apply map_Forall_insert_2; [| done].
      unfold stored. destruct (statusmap c !! pvname st) as [e |] eqn:E;
        [| done].
      destruct (update_severity e st) as [[-> _] | ->]; [done |].
      by apply (Hok (pvname st) e).
  - injection Hstep as Hc.
    destruct (checkStatusMap_frame c cfg now) as (Hm & _).
    rewrite Hc in Hm. cbn in Hm. intros k e' Hk'.
    specialize (Hm k). rewrite Hk' in Hm.
    inversion Hm as [e ? G Hk |]; subst. symmetry in Hk.
    destruct G as (_ & -> & _). by apply (Hok k e).
  - injection Hstep as Hc.
    destruct (operateFlashLight_iteration_frame c cfg now) as (Hm & _).
    rewrite Hc in Hm. cbn in Hm. unfold only_active. by rewrite Hm.
Qed.

Lemma run_only_active evs : forall c c',
  only_active c -> (run c evs).2 = Ok c' -> only_active c'.
Proof.
  induction evs as [| ev evs IH]; intros c c' Hok Hrun; cbn [run] in Hrun.
  - by injection Hrun as <-.
  - destruct (step c ev) as [[c1 acts] |] eqn:Hstep; [| done].
    destruct (run c1 evs) as [acts' r] eqn:Hr. cbn in Hrun. subst r.
    apply (IH c1 c'); [by eapply step_only_active | by rewrite Hr].
Qed.

(** X3. Whatever reports and ticks a fresh connector goes through, every
    entry of its map is stored under its own PV name and carries a
    severity that is not cleared: an acknowledged or OK state is never
    kept as an alarm. *)
Theorem reachable_map_well_formed desktop beedo evs c :
  (run (fresh desktop beedo) evs).2 = Ok c ->
  keys_ok c /\ only_active c.
Proof.
  intros Hrun. split.
  - eapply run_keys_ok; [apply keys_ok_fresh | done].
  - eapply run_only_active; [| done]. apply map_Forall_empty.
Qed.

Lemma reachable_map_well_formed_witness :
  keys_ok example_server /\ only_active example_server.
Proof.
  apply (reachable_map_well_formed false false [Report example_alarm]
           example_server).
  reflexivity.
Defined.

(** X4. A report that is classified changes the number of alarms by one
    at most: a cleared report takes one away when its PV is in the map,
    a non-cleared report adds one when its PV is not, and in the two
    other cases the number stays. *)
Theorem report_changes_count c st cleared :
  checkSeverityString (severity st) = Ok cleared ->
  exists c', notifyStatusChange c st = Ok c'
    /\ getNumberOfAlarms c'
       = match cleared, statusmap c !! pvname st with
         | true, Some _ => (getNumberOfAlarms c - 1)%nat
         | true, None => getNumberOfAlarms c
         | false, Some _ => getNumberOfAlarms c
         | false, None => S (getNumberOfAlarms c)
         end.
Proof.
  intros Hs. unfold getNumberOfAlarms. destruct cleared.
  - eexists. split; [by apply notifyStatusChange_cleared |]. cbn.
    destruct (statusmap c !! pvname st) as [e |] eqn:E.
    + rewrite map_size_delete, E. cbn. lia.
    + by rewrite map_size_delete_None.
  - eexists. split; [by apply notifyStatusChange_active |]. cbn.
    destruct (statusmap c !! pvname st) as [e |] eqn:E.
    + by rewrite map_size_insert, E.
    + by rewrite map_size_insert_None.
Qed.

Lemma report_changes_count_witness :
  exists c',
    notifyStatusChange example_server
      (newAlarmStatusEntry "pv2" "MAJOR_ACK" "ALARM" 3) = Ok c'
    /\ getNumberOfAlarms c' = (getNumberOfAlarms example_server - 1)%nat.
Proof.
  apply (report_changes_count example_server
           (newAlarmStatusEntry "pv2" "MAJOR_ACK" "ALARM" 3) true).
  reflexivity.
Defined.

(** X5. Neither a watcher tick nor a pass of the flash light loop
    changes which PVs are in alarm: the key set and the count are the
    same afterwards, and the flash light loop leaves the whole map as it
    is. Only reports add or remove alarms. *)
Theorem ticks_keep_alarm_set c cfg now :
  dom (statusmap (checkStatusMap c cfg now).1) = dom (statusmap c)
  /\ getNumberOfAlarms (checkStatusMap c cfg now).1 = getNumberOfAlarms c
  /\ statusmap (operateFlashLight_iteration c cfg now).1 = statusmap c.
Proof.
  destruct (checkStatusMap_frame c cfg now) as (Hm & _). cbn in Hm.
  split; [| split].
  - apply set_eq. intros k. rewrite !elem_of_dom. specialize (Hm k).
    destruct Hm; split; intros [? ?]; by eauto.
  - unfold getNumberOfAlarms. symmetry. by apply same_alarms_size.
  - by destruct (operateFlashLight_iteration_frame c cfg now) as (-> & _).
Qed.

(** X6. Raising an alarm on a PV that is not in the map and clearing it
    again gives back the map as it was; the oldest-alarm time is not
    given back: if it was at the no-alarm value it now holds the time of
    the raised alarm, until a watcher tick meets the empty map. *)
Theorem raise_then_clear c raised cleared :
  statusmap c !! pvname raised = None ->
  pvname cleared = pvname raised ->
  checkSeverityString (severity raised) = Ok false ->
  checkSeverityString (severity cleared) = Ok true ->
  exists c1 c2,
    notifyStatusChange c raised = Ok c1
    /\ notifyStatusChange c1 cleared = Ok c2
    /\ statusmap c1 !! pvname raised = Some raised
    /\ statusmap c2 = statusmap c
    /\ oldestAlarm c2 = (if oldestAlarm c =? noAlarmActive
                         then triggertime raised else oldestAlarm c).
Proof.
  intros Hk Hpv Hr Hc. do 2 eexists.
  split; [by apply notifyStatusChange_active |].
  split; [by apply notifyStatusChange_cleared |].
  unfold stored. rewrite Hk, Hpv. cbn.
  rewrite lookup_insert_eq, delete_insert_eq, delete_id by done. done.
Qed.

Lemma raise_then_clear_witness :
  let raised := newAlarmStatusEntry "pv1" "MINOR" "HIGH" 20 in
  let cleared := newAlarmStatusEntry "pv1" "OK" "OK" 30 in
  exists c1 c2,
    notifyStatusChange example_server raised = Ok c1
    /\ notifyStatusChange c1 cleared = Ok c2
    /\ statusmap c1 !! pvname raised = Some raised
    /\ statusmap c2 = statusmap example_server
    /\ oldestAlarm c2 = (if oldestAlarm example_server =? noAlarmActive
                         then triggertime raised
                         else oldestAlarm example_server).
Proof.
  apply (raise_then_clear example_server
           (newAlarmStatusEntry "pv1" "MINOR" "HIGH" 20)
           (newAlarmStatusEntry "pv1" "OK" "OK" 30));
    reflexivity.
Defined.

(** ** The oldest-alarm time under a clock that is not set back *)

Lemma step_oldest_inv t c ev c' acts :
  oldest_inv t c -> clock_from t [ev] -> step c ev = Ok (c', acts) ->
  exists t', oldest_inv t' c' /\ (forall evs, clock_from t (ev :: evs) ->
                                              clock_from t' evs).
Proof.
  intros (Ht & Hold & Hcov) Hclk Hstep.
  destruct ev as [st | cfg now | cfg now]; cbn in Hstep, Hclk.
  - destruct Hclk as [Hle _]. exists (triggertime st).
    split; [| by intros evs [_ ?]].
    destruct (notifyStatusChange_cases c st)
      as [(x & _ & Hn) | [(_ & Hn) | (_ & Hn)]];
      rewrite Hn in Hstep; cbn in Hstep; [done | |];
      injection Hstep as <- <-.
    + split; [lia |]. split; [cbn; lia |].
      unfold oldest_covers. cbn. by apply map_Forall_delete.
    + split; [lia |]. cbn.
      destruct (Z.eqb_spec (oldestAlarm c) noAlarmActive) as [Hs | Hs].
      * assert (Hempty : statusmap c = ∅).
        { apply map_empty. intros k.
          destruct (statusmap c !! k) as [e |] eqn:E; [| done].
          by destruct (Hcov k e E). }
        split; [lia |]. unfold oldest_covers, stored. cbn.
        rewrite Hempty, lookup_empty, insert_empty.
        apply map_Forall_singleton. lia.
      * split; [lia |]. unfold oldest_covers. cbn.
        apply map_Forall_insert_2; [| done].
        split; [done |]. unfold stored.
        destruct (statusmap c !! pvname st) as [e |] eqn:E; [| lia].
        destruct (update_frame e st) as (_ & -> & _).
        by destruct (Hcov _ e E).
  - exists t. split; [| by intros evs ?]. injection Hstep as Hc.
    destruct (checkStatusMap_frame c cfg now) as (Hm & _).
    destruct (checkStatusMap_oldestAlarm c cfg now) as [Ho | [Hsz Ho]];
      rewrite Hc in Hm, Ho; cbn in Hm, Ho.
    + split; [done |]. split; [by rewrite Ho |].
      intros k e' Hk'. specialize (Hm k). rewrite Hk' in Hm.
      inversion Hm as [e ? G Hk |]; subst. symmetry in Hk.
      destruct G as (_ & _ & _ & -> & _). rewrite Ho. by apply (Hcov k e).
    + split; [done |]. split; [by left |].
      apply map_size_empty_inv in Hsz.
      intros k e' Hk'. specialize (Hm k). rewrite Hk', Hsz, lookup_empty in Hm.
      inversion Hm.
  - exists t. split; [| by intros evs ?]. injection Hstep as Hc.
    destruct (operateFlashLight_iteration_frame c cfg now) as (Hm & Ho & _).
    rewrite Hc in Hm, Ho. cbn in Hm, Ho.
    split; [done |]. split; [by rewrite Ho |].
    unfold oldest_covers. by rewrite Hm, Ho.
Qed.

Lemma run_oldest_inv evs : forall t c c',
  oldest_inv t c -> clock_from t evs -> (run c evs).2 = Ok c' ->
  exists t', oldest_inv t' c'.
Proof.
  induction evs as [| ev evs IH]; intros t c c' Hinv Hclk Hrun;
    cbn [run] in Hrun.
  - injection Hrun as <-. eauto.
  - destruct (step c ev) as [[c1 acts] |] eqn:Hstep; [| done].
    destruct (run c1 evs) as [acts' r] eqn:Hr. cbn in Hrun. subst r.
    destruct (step_oldest_inv t c ev c1 acts) as (t1 & Hinv1 & Hclk1);
      [done | by destruct ev; cbn in *; tauto | done |].
    apply (IH t1 c1 c'); [done | by apply Hclk1 | by rewrite Hr].
Qed.

(** X7. When the trigger times of the reports never go back, the
    oldest-alarm time of every state reached from a fresh connector is
    set as soon as the map holds an alarm, and it is not later than the
    trigger time of any alarm in the map: the set-level timeout test can
    be early for an alarm, never late. *)
Theorem oldestAlarm_covers desktop beedo t evs c :
  noAlarmActive < t -> clock_from t evs ->
  (run (fresh desktop beedo) evs).2 = Ok c ->
  oldest_covers c.
Proof.
  intros Ht Hclk Hrun.
  destruct (run_oldest_inv evs t (fresh desktop beedo) c) as (t' & _ & _ & H);
    try done.
  split; [done |]. split; [by left |]. apply map_Forall_empty.
Qed.

Lemma oldestAlarm_covers_witness : oldest_covers example_server.
Proof.
  apply (oldestAlarm_covers false false 0 [Report example_alarm]
           example_server).
  - reflexivity.
  - cbn. split; [lia | done].
  - reflexivity.
Defined.

(** ** Desktop notifications *)

Lemma checkStatusMap_desktop_fires c cfg now :
  getDesktopNotificationTimeout cfg <> 0%N ->
  size (statusmap c) <> 0%nat ->
  oldestAlarm c + Z.of_N (getDesktopNotificationTimeout cfg) <= now ->
  checkStatusMap_desktop c cfg now
  = let v := desktopSent <$> filter (fun e => desktopDue cfg now e = true)
                                    (entries (statusmap c)) in
    (with_statusmap c
       (mark_if_due (desktopDue cfg now) desktopSent <$> statusmap c),
     (if (0 <? length v)%nat then [SendDesktopNotification v] else [])
     ++ (if activateBeedo c then [BeedoStart] else [])).
Proof.
  intros Ht Hsz Hold. unfold checkStatusMap_desktop.
  destruct (Nat.eqb_spec (size (statusmap c)) 0); [done |].
  destruct (Z.leb_spec (oldestAlarm c
                        + Z.of_N (getDesktopNotificationTimeout cfg)) now);
    [| lia].
  cbn [negb andb]. rewrite prepareDesktopNotification_eq.
  by destruct (N.eqb_spec (getDesktopNotificationTimeout cfg) 0).
Qed.

(** X8. No due alarm is missed. When the oldest-alarm time is not later
    than an alarm's trigger time, the desktop timeout is not 0, and the
    alarm has reached the timeout without a desktop notification, the
    next watcher tick sends a desktop batch that names its PV and sets
    its desktop flag. *)
Theorem due_alarm_is_sent c cfg now pv e :
  keys_ok c -> statusmap c !! pv = Some e ->
  desktopNotificationSent e = false ->
  getDesktopNotificationTimeout cfg <> 0%N ->
  oldestAlarm c <= triggertime e ->
  triggertime e + Z.of_N (getDesktopNotificationTimeout cfg) <= now ->
  (exists v, SendDesktopNotification v ∈ (checkStatusMap c cfg now).2
             /\ pv ∈ names v)
  /\ desktopNotificationSent <$> (statusmap (checkStatusMap c cfg now).1 !! pv)
     = Some true.
Proof.
  intros Hok Hk Hf Ht Hold Hdue.
  assert (Hsz : size (statusmap c) <> 0%nat).
  { intros Hz. apply map_size_empty_inv in Hz. by rewrite Hz in Hk. }
  rewrite checkStatusMap_eq. cbn [fst snd].
  assert (E1 : checkStatusMap_reset c = (c, [])).
  { destruct (checkStatusMap_reset_cases c) as [E | (Hz & _)]; done. }
  rewrite E1. cbn [fst snd app].
  rewrite checkStatusMap_desktop_fires by (done || lia).
  cbn zeta. cbn [fst snd].
  set (v := desktopSent <$> filter (fun e => desktopDue cfg now e = true)
                                   (entries (statusmap c))).
  set (c2 := with_statusmap c _).
  assert (Hdue_e : desktopDue cfg now e = true).
  { unfold desktopDue. rewrite Hf. cbn.
    apply andb_true_iff. split; [by apply Z.leb_le | done]. }
  assert (Hin : desktopSent e ∈ v).
  { unfold v. apply list_elem_of_fmap. exists e. split; [done |].
    apply list_elem_of_filter. split; [done |].
    apply list_elem_of_fmap. exists (pv, e). split; [done |].
    by apply elem_of_map_to_list. }
  split.
  - exists v. split.
    + rewrite !elem_of_app. left. left.
      destruct v as [| x l]; [by apply elem_of_nil in Hin |].
      cbn. apply list_elem_of_singleton. done.
    + apply list_elem_of_fmap. exists (desktopSent e). split; [| done].
      cbn. by rewrite (Hok pv e Hk).
  - destruct (checkStatusMap_email_frame c2 cfg now) as (Hm & _).
    cbn in Hm.
    assert (Hk2 : statusmap c2 !! pv = Some (desktopSent e)).
    { unfold c2. cbn. rewrite lookup_fmap, Hk. cbn.
      unfold mark_if_due. by rewrite Hdue_e. }
    destruct (same_alarms_present _ _ _ _ Hm Hk2) as (e3 & -> & G).
    cbn. f_equal. by apply G.
Qed.

Lemma due_alarm_is_sent_witness :
  (exists v, SendDesktopNotification v
               ∈ (checkStatusMap example_server example_cfg 6).2
             /\ "pv2" ∈ names v)
  /\ desktopNotificationSent
       <$> (statusmap (checkStatusMap example_server example_cfg 6).1 !! "pv2")
     = Some true.
Proof.
  apply (due_alarm_is_sent example_server example_cfg 6 "pv2" example_alarm).
  - apply map_Forall_singleton. reflexivity.
  - reflexivity.
  - reflexivity.
  - discriminate.
  - vm_compute. discriminate.
  - vm_compute. discriminate.
Defined.

(** ** The calls of one watcher tick *)

Lemma with_oldestAlarm_id c : with_oldestAlarm c (oldestAlarm c) = c.
Proof. by destruct c. Qed.

Lemma checkStatusMap_reset_eq c :
  let b := (size (statusmap c) =? 0)%nat
           && negb (oldestAlarm c =? noAlarmActive) in
  checkStatusMap_reset c
  = (if b then with_oldestAlarm c noAlarmActive else c,
     when (b && activateBeedo c) BeedoStop).
Proof.
  cbn zeta. unfold checkStatusMap_reset, when.
  destruct (_ && _); [| done]. by destruct (activateBeedo c).
Qed.

Lemma checkStatusMap_desktop_eq c cfg now :
  let t := desktop_test c cfg now
           && negb (getDesktopNotificationTimeout cfg =? 0)%N in
  let vd := desktop_selection cfg now (statusmap c) in
  checkStatusMap_desktop c cfg now
  = (if t then with_statusmap c (desktop_marked cfg now (statusmap c)) else c,
     when (t && (0 <? length vd)%nat) (SendDesktopNotification vd)
     ++ when (desktop_test c cfg now && activateBeedo c) BeedoStart).
Proof.
  cbn zeta. unfold checkStatusMap_desktop, desktop_test, when.
  destruct (_ && _); [| done].
  rewrite prepareDesktopNotification_eq.
  destruct (getDesktopNotificationTimeout cfg =? 0)%N; [done |].
  cbn [negb andb]. cbn zeta.
  fold (desktop_selection cfg now (statusmap c)).
  fold (desktop_marked cfg now (statusmap c)).
  by destruct (0 <? length _)%nat.
Qed.

Lemma checkStatusMap_email_eq c cfg now :
  let t := email_test c cfg now && negb (desktopVersion c)
           && negb (getEMailNotificationTimeout cfg =? 0)%N in
  let ve := email_selection (statusmap c) in
  checkStatusMap_email c cfg now
  = (if t then with_statusmap c (mark_if_due emailDue emailSent <$> statusmap c)
     else c,
     when (t && (0 <? length ve)%nat) (SendEMailNotification ve)).
Proof.
  cbn zeta. unfold checkStatusMap_email, email_test, when.
  destruct (_ && _); [| done].
  rewrite prepareEMailNotification_eq.
  destruct (desktopVersion c); [done |].
  destruct (getEMailNotificationTimeout cfg =? 0)%N; [done |].
  cbn [negb andb]. cbn zeta. fold (email_selection (statusmap c)).
  by destruct (0 <? length _)%nat.
Qed.

(** The set-level tests see the same after the reset statement and after
    the desktop statement. *)
Lemma desktop_test_reset c cfg now :
  desktop_test (checkStatusMap_reset c).1 cfg now = desktop_test c cfg now.
Proof.
  destruct (checkStatusMap_reset_cases c) as [-> | (Hsz & -> & _)];
    [done |].
  unfold desktop_test. cbn. by rewrite Hsz.
Qed.

Lemma email_test_desktop c cfg now :
  email_test (checkStatusMap_desktop (checkStatusMap_reset c).1 cfg now).1
    cfg now
  = email_test c cfg now.
Proof.
  destruct (checkStatusMap_desktop_frame (checkStatusMap_reset c).1 cfg now)
    as (Hm & _ & _ & _ & Ho).
  destruct (checkStatusMap_reset_frame c) as (Hm1 & _).
  cbn in Hm, Ho, Hm1. unfold email_test.
  rewrite Ho, <- (same_alarms_size _ _ Hm), Hm1.
  destruct (checkStatusMap_reset_cases c) as [-> | (Hsz & -> & _)];
    [done |].
  by rewrite Hsz.
Qed.

(** The calls of a watcher tick and the map it leaves, read off the three
    statements. *)
Lemma checkStatusMap_calls c cfg now :
  let dt := getDesktopNotificationTimeout cfg in
  let et := getEMailNotificationTimeout cfg in
  let vd := desktop_selection cfg now (statusmap c) in
  let m2 := if desktop_test c cfg now && negb (dt =? 0)%N
            then desktop_marked cfg now (statusmap c) else statusmap c in
  let ve := email_selection m2 in
  (checkStatusMap c cfg now).2
  = when ((size (statusmap c) =? 0)%nat
          && negb (oldestAlarm c =? noAlarmActive) && activateBeedo c)
         BeedoStop
    ++ when (desktop_test c cfg now && negb (dt =? 0)%N
             && (0 <? length vd)%nat)
            (SendDesktopNotification vd)
    ++ when (desktop_test c cfg now && activateBeedo c) BeedoStart
    ++ when (email_test c cfg now && negb (desktopVersion c)
             && negb (et =? 0)%N && (0 <? length ve)%nat)
            (SendEMailNotification ve)
  /\ statusmap (checkStatusMap c cfg now).1
     = (if email_test c cfg now && negb (desktopVersion c) && negb (et =? 0)%N
        then mark_if_due emailDue emailSent <$> m2 else m2).
Proof.
  cbn zeta. rewrite checkStatusMap_eq. cbn [fst snd].
  pose proof (email_test_desktop c cfg now) as He.
  pose proof (desktop_test_reset c cfg now) as Hd.
  destruct (checkStatusMap_reset_frame c) as (Hm1 & Hv1 & Hb1 & _).
  destruct (checkStatusMap_desktop_frame (checkStatusMap_reset c).1 cfg now)
    as (_ & Hv2 & _).
  cbn in Hm1, Hv1, Hb1, Hv2.
  rewrite (checkStatusMap_email_eq
             (checkStatusMap_desktop (checkStatusMap_reset c).1 cfg now).1).
  cbn zeta. rewrite He, Hv2, Hv1.
  rewrite (checkStatusMap_desktop_eq (checkStatusMap_reset c).1).
  cbn zeta. rewrite Hd, Hm1, Hb1.
  rewrite (checkStatusMap_reset_eq c) at 1. cbn zeta. cbn [snd].
  assert (Hm2 : statusmap
                  (if desktop_test c cfg now
                      && negb (getDesktopNotificationTimeout cfg =? 0)%N
                   then with_statusmap (checkStatusMap_reset c).1
                          (desktop_marked cfg now (statusmap c))
                   else (checkStatusMap_reset c).1)
                = (if desktop_test c cfg now
                      && negb (getDesktopNotificationTimeout cfg =? 0)%N
                   then desktop_marked cfg now (statusmap c)
                   else statusmap c)).
  { by destruct (_ && _). }
  cbn [fst snd]. rewrite Hm2. split.
  - by rewrite <- !app_assoc.
  - by destruct (email_test c cfg now && _ && _).
Qed.


(** ** Batches *)

Lemma names_entries (m : gmap string AlarmStatusEntry) :
  map_Forall (fun k e => pvname e = k) m ->
  pvname <$> entries m = (map_to_list m).*1.
Proof.
  intros Hok. unfold entries. rewrite <- list_fmap_compose.
  apply list_fmap_ext. intros i [k e] Hi. cbn.
  apply (Hok k e). apply elem_of_map_to_list.
  by eapply list_elem_of_lookup_2.
Qed.

Lemma names_selection_NoDup (f : AlarmStatusEntry -> AlarmStatusEntry)
    (P : AlarmStatusEntry -> Prop) `{!forall e, Decision (P e)}
    (m : gmap string AlarmStatusEntry) :
  map_Forall (fun k e => pvname e = k) m ->
  (forall e, pvname (f e) = pvname e) ->
  NoDup (names (f <$> filter P (entries m))).
Proof.
  intros Hok Hf. unfold names. rewrite <- list_fmap_compose.
  rewrite (list_fmap_ext (pvname ∘ f) pvname _ (fun _ e _ => Hf e)).
  apply (sublist_NoDup _ (pvname <$> entries m)).
  - rewrite names_entries by done. apply NoDup_fst_map_to_list.
  - apply fmap_sublist, sublist_filter.
Qed.

Lemma names_selection_elem (f : AlarmStatusEntry -> AlarmStatusEntry)
    (P : AlarmStatusEntry -> Prop) `{!forall e, Decision (P e)}
    (m : gmap string AlarmStatusEntry) pv :
  map_Forall (fun k e => pvname e = k) m ->
  (forall e, pvname (f e) = pvname e) ->
  pv ∈ names (f <$> filter P (entries m)) <->
  exists e, m !! pv = Some e /\ P e.
Proof.
  intros Hok Hf. unfold names. rewrite list_elem_of_fmap. split.
  - intros (e' & -> & He'). apply list_elem_of_fmap in He' as (e & -> & He).
    apply list_elem_of_filter in He as [HP He].
    apply list_elem_of_fmap in He as ([k e0] & -> & He).
    apply elem_of_map_to_list in He. exists e0. split; [| done].
    cbn. by rewrite Hf, (Hok k e0 He).
  - intros (e & Hk & HP). exists (f e). split; [by rewrite Hf, (Hok pv e Hk) |].
    apply list_elem_of_fmap. exists e. split; [done |].
    apply list_elem_of_filter. split; [done |].
    apply list_elem_of_fmap. exists (pv, e). split; [done |].
    by apply elem_of_map_to_list.
Qed.

Lemma keys_ok_desktop_marked cfg now (m : gmap string AlarmStatusEntry) :
  map_Forall (fun k e => pvname e = k) m ->
  map_Forall (fun k e => pvname e = k) (desktop_marked cfg now m).
Proof.
  intros Hok k e'. unfold desktop_marked. rewrite lookup_fmap.
  destruct (m !! k) as [e |] eqn:E; [| done]. intros [= <-].
  destruct (grows_mark_desktop (desktopDue cfg now) e) as (-> & _).
  by apply (Hok k e).
Qed.

Lemma elem_of_when b a x : x ∈ when b a <-> b = true /\ x = a.
Proof.
  unfold when. destruct b.
  - rewrite list_elem_of_singleton. tauto.
  - rewrite elem_of_nil. split; [done | by intros [? _]].
Qed.

(** X10. Every batch a watcher tick sends, desktop or e-mail, is not
    empty, names no PV twice, and names only PVs that are in the map. *)
Theorem batches_are_sets c cfg now a v :
  keys_ok c ->
  a ∈ (checkStatusMap c cfg now).2 ->
  a = SendDesktopNotification v \/ a = SendEMailNotification v ->
  v <> [] /\ NoDup (names v)
  /\ forall pv, pv ∈ names v -> is_Some (statusmap c !! pv).
Proof.
  intros Hok Ha Hv.
  destruct (checkStatusMap_calls c cfg now) as [Hacts _]. cbn zeta in Hacts.
  rewrite Hacts in Ha. clear Hacts.
  rewrite !elem_of_app, !elem_of_when in Ha.
  assert (Hlen : forall l : list AlarmStatusEntry,
            (0 <? length l)%nat = true -> l <> []).
  { intros [| x l]; [done | done]. }
  destruct Ha as [[_ ->] | [[Hb ->] | [[_ ->] | [Hb ->]]]];
    destruct Hv as [Hv | Hv]; try done; injection Hv as <-;
    apply andb_true_iff in Hb as [Hb Hl].
  - split; [by apply Hlen |]. unfold desktop_selection.
    split; [by apply names_selection_NoDup |].
    intros pv Hpv. apply names_selection_elem in Hpv as (e & -> & _); eauto.
  - split; [by apply Hlen |]. unfold email_selection.
    assert (Hok2 : map_Forall (fun k e => pvname e = k)
                     (if desktop_test c cfg now
                         && negb (getDesktopNotificationTimeout cfg =? 0)%N
                      then desktop_marked cfg now (statusmap c)
                      else statusmap c)).
    { destruct (desktop_test c cfg now
                && negb (getDesktopNotificationTimeout cfg =? 0)%N);
        [by apply keys_ok_desktop_marked | done]. }
    split; [by apply names_selection_NoDup |].
    intros pv Hpv. apply names_selection_elem in Hpv as (e & Hk & _);
      [| done | done].
    destruct (desktop_test c cfg now
              && negb (getDesktopNotificationTimeout cfg =? 0)%N); [| eauto].
    unfold desktop_marked in Hk. rewrite lookup_fmap in Hk.
    destruct (statusmap c !! pv); [eauto | done].
Qed.

Lemma batches_are_sets_witness :
  let v := [setDesktopNotificationSent example_alarm true] in
  v <> [] /\ NoDup (names v)
  /\ forall pv, pv ∈ names v -> is_Some (statusmap example_server !! pv).
Proof.
  apply (batches_are_sets example_server example_cfg 6
           (SendDesktopNotification
              [setDesktopNotificationSent example_alarm true])).
  - apply map_Forall_singleton. reflexivity.
  - vm_compute. apply list_elem_of_here.
  - by left.
Defined.

(** ** At most one notification per alarm *)

Lemma clearsb_clears pv ev : clearsb pv ev = true <-> clears pv ev.
Proof.
  destruct ev as [st | |]; cbn; [| by split | by split].
  rewrite andb_true_iff, bool_decide_eq_true.
  destruct (checkSeverityString (severity st)) as [[|] |];
    split; intros [? ?]; done.
Qed.

Lemma step_keeps_flag c ev c' acts pv :
  step c ev = Ok (c', acts) -> clearsb pv ev = false ->
  (flagged desktopNotificationSent pv c = true ->
   flagged desktopNotificationSent pv c' = true)
  /\ (flagged emailNotificationSent pv c = true ->
      flagged emailNotificationSent pv c' = true).
Proof.
  intros Hstep Hcl. unfold flagged.
  destruct (statusmap c !! pv) as [e |] eqn:Hk; [| by split].
  destruct (step_present c ev c' acts pv e Hstep Hk) as [e' Hk'].
  { rewrite <- clearsb_clears. by rewrite Hcl. }
  rewrite Hk'.
  destruct (step_ages _ _ _ _ _ _ _ Hstep Hk Hk') as (_ & _ & Hd & He).
  by split.
Qed.

Section AtMostOnce.

Variable sent : AlarmStatusEntry -> bool.
Variable hit : string -> action -> bool.

Hypothesis step_keeps : forall c ev c' acts pv,
  step c ev = Ok (c', acts) -> clearsb pv ev = false ->
  flagged sent pv c = true -> flagged sent pv c' = true.

Hypothesis step_once : forall c ev c' acts pv,
  keys_ok c -> step c ev = Ok (c', acts) ->
  (length (filter (fun a => hit pv a = true) acts) <= 1)%nat
  /\ (length (filter (fun a => hit pv a = true) acts) = 1%nat ->
      flagged sent pv c = false /\ flagged sent pv c' = true).

Lemma run_at_most_once evs : forall c pv,
  keys_ok c ->
  (length (filter (fun a => hit pv a = true) (run c evs).1)
   <= (if flagged sent pv c then 0 else 1) + clearings pv evs)%nat.
Proof.
  induction evs as [| ev evs IH]; intros c pv Hok; cbn [run].
  - cbn. lia.
  - destruct (step c ev) as [[c1 acts] |] eqn:Hstep; [| cbn; lia].
    specialize (IH c1 pv (step_keys_ok _ _ _ _ Hstep Hok)).
    destruct (run c1 evs) as [acts' r]. cbn [fst] in *.
    rewrite filter_app, length_app.
    destruct (step_once c ev c1 acts pv Hok Hstep) as [Hle Hone].
    pose proof (step_keeps c ev c1 acts pv Hstep) as Hkeep.
    unfold clearings in *. rewrite filter_cons.
    destruct (clearsb pv ev) eqn:Hcl.
    + rewrite decide_True by done. cbn [length].
      destruct (decide (length (filter (fun a => hit pv a = true) acts)
                        = 1%nat)) as [H1 | H1].
      * destruct (Hone H1) as [_ Hf1]. rewrite Hf1 in IH. lia.
      * destruct (flagged sent pv c1), (flagged sent pv c); lia.
    + rewrite decide_False by done.
      destruct (decide (length (filter (fun a => hit pv a = true) acts)
                        = 1%nat)) as [H1 | H1].
      * destruct (Hone H1) as [Hf Hf1]. rewrite Hf1 in IH. rewrite Hf. lia.
      * destruct (flagged sent pv c) eqn:Hf.
        -- rewrite Hkeep in IH by done. lia.
        -- destruct (flagged sent pv c1); lia.
Qed.

End AtMostOnce.

Lemma filter_when (P : action -> Prop) `{!forall a, Decision (P a)} b a :
  length (filter P (when b a)) = if b then (if decide (P a) then 1 else 0)%nat
                                 else 0%nat.
Proof.
  unfold when. destruct b; [| done].
  rewrite filter_cons, filter_nil. by destruct (decide (P a)).
Qed.

Lemma filter_none {A} (P : A -> Prop) `{!forall a, Decision (P a)} l :
  (forall a, a ∈ l -> ~ P a) -> filter P l = [].
Proof.
  induction l as [| x l IH]; intros Hl; [done |].
  rewrite filter_cons, decide_False; [| apply Hl, list_elem_of_here].
  apply IH. intros a Ha. apply Hl. by apply list_elem_of_further.
Qed.

Lemma operateFlashLight_iteration_no_batch c cfg now
    (P : action -> Prop) `{!forall a, Decision (P a)} :
  ~ P FlashLightSwitchOn -> ~ P FlashLightSwitchOff ->
  filter P (operateFlashLight_iteration c cfg now).2 = [].
Proof.
  intros Hon Hoff. apply filter_none. intros a Ha.
  by apply operateFlashLight_iteration_actions in Ha as [-> | ->].
Qed.

Lemma desktop_step_once c ev c' acts pv :
  keys_ok c -> step c ev = Ok (c', acts) ->
  (desktop_notifications pv acts <= 1)%nat
  /\ (desktop_notifications pv acts = 1%nat ->
      flagged desktopNotificationSent pv c = false
      /\ flagged desktopNotificationSent pv c' = true).
Proof.
  intros Hok Hstep. unfold desktop_notifications.
  destruct ev as [st | cfg now | cfg now]; cbn in Hstep.
  - destruct (notifyStatusChange c st); cbn in Hstep; [| done].
    injection Hstep as <- <-. cbn. split; [lia | done].
  - injection Hstep as Hc.
    destruct (checkStatusMap_calls c cfg now) as [Hacts Hmap]. cbn zeta in Hacts, Hmap.
    rewrite Hc in Hacts, Hmap. cbn [fst snd] in Hacts, Hmap.
    rewrite Hacts, !filter_app, !length_app, !filter_when. cbn [in_desktop_batch].
    rewrite !(decide_False (P := false = true)) by done.
    assert (Hzero : forall b : bool, (if b then 0 else 0)%nat = 0%nat)
      by (by intros []).
    rewrite !Hzero. cbn [Nat.add]. rewrite Nat.add_0_r.
    destruct (desktop_test c cfg now
              && negb (getDesktopNotificationTimeout cfg =? 0)%N) eqn:Ht;
      cbn [andb]; [| split; [lia | done]].
    destruct (0 <? length _)%nat; [| split; [lia | done]].
    destruct (decide (bool_decide
                        (pv ∈ names (desktop_selection cfg now (statusmap c)))
                      = true)) as [Hin | Hin]; [| split; [lia | done]].
    split; [lia |]. intros _.
    apply bool_decide_eq_true in Hin.
    apply names_selection_elem in Hin as (e & Hk & Hdue); [| done | done].
    unfold flagged. rewrite Hk, Hmap.
    assert (Hf : desktopNotificationSent e = false).
    { unfold desktopDue in Hdue. apply andb_true_iff in Hdue as [_ Hf].
      by apply negb_true_iff in Hf. }
    split; [done |].
    assert (Hk2 : desktop_marked cfg now (statusmap c) !! pv
                  = Some (desktopSent e)).
    { unfold desktop_marked. rewrite lookup_fmap, Hk. cbn.
      unfold mark_if_due. by rewrite Hdue. }
    destruct (email_test c cfg now && _ && _).
    + rewrite lookup_fmap, Hk2. cbn. unfold mark_if_due.
      by destruct (emailDue (desktopSent e)).
    + by rewrite Hk2.
  - injection Hstep as Hc.
    assert (acts = (operateFlashLight_iteration c cfg now).2) as ->
      by (by rewrite Hc).
    rewrite operateFlashLight_iteration_no_batch by done.
    cbn. split; [lia | done].
Qed.

(** X11. Along any run a PV is named in at most one desktop batch per
    alarm period: the number of desktop batches naming it is at most one
    more than the number of cleared reports for it, and not even that one
    when its entry starts with the desktop flag set. *)
Theorem desktop_at_most_once c pv evs :
  keys_ok c ->
  (desktop_notifications pv (run c evs).1
   <= (if flagged desktopNotificationSent pv c then 0 else 1)
      + clearings pv evs)%nat.
Proof.
  intros Hok. unfold desktop_notifications.
  apply (run_at_most_once desktopNotificationSent in_desktop_batch);
    [| apply desktop_step_once | done].
  intros c0 ev c' acts pv0 Hstep Hcl.
  by destruct (step_keeps_flag _ _ _ _ pv0 Hstep Hcl).
Qed.

Lemma desktop_at_most_once_witness :
  (desktop_notifications "pv2" (run example_server example_events).1
   <= (if flagged desktopNotificationSent "pv2" example_server then 0 else 1)
      + clearings "pv2" example_events)%nat.
Proof.
  apply (desktop_at_most_once example_server "pv2" example_events).
  apply map_Forall_singleton. reflexivity.
Defined.

Lemma email_step_once c ev c' acts pv :
  keys_ok c -> step c ev = Ok (c', acts) ->
  (email_notifications pv acts <= 1)%nat
  /\ (email_notifications pv acts = 1%nat ->
      flagged emailNotificationSent pv c = false
      /\ flagged emailNotificationSent pv c' = true).
Proof.
  intros Hok Hstep. unfold email_notifications.
  destruct ev as [st | cfg now | cfg now]; cbn in Hstep.
  - destruct (notifyStatusChange c st); cbn in Hstep; [| done].
    injection Hstep as <- <-. cbn. split; [lia | done].
  - injection Hstep as Hc.
    destruct (checkStatusMap_calls c cfg now) as [Hacts Hmap]. cbn zeta in Hacts, Hmap.
    rewrite Hc in Hacts, Hmap. cbn [fst snd] in Hacts, Hmap.
    rewrite Hacts, !filter_app, !length_app, !filter_when. cbn [in_email_batch].
    rewrite !(decide_False (P := false = true)) by done.
    assert (Hzero : forall b : bool, (if b then 0 else 0)%nat = 0%nat)
      by (by intros []).
    rewrite !Hzero. cbn [Nat.add].
    set (m2 := if desktop_test c cfg now
                  && negb (getDesktopNotificationTimeout cfg =? 0)%N
               then desktop_marked cfg now (statusmap c)
               else statusmap c) in *.
    assert (Hok2 : map_Forall (fun k e => pvname e = k) m2).
    { unfold m2. destruct (desktop_test c cfg now && _);
        [by apply keys_ok_desktop_marked | done]. }
    assert (Hm2 : forall e2, m2 !! pv = Some e2 ->
              exists e, statusmap c !! pv = Some e
                        /\ emailNotificationSent e = emailNotificationSent e2).
    { intros e2. unfold m2. destruct (desktop_test c cfg now && _); [| eauto].
      unfold desktop_marked. rewrite lookup_fmap.
      destruct (statusmap c !! pv) as [e |]; [| done]. intros [= <-].
      exists e. split; [done |]. unfold mark_if_due.
      by destruct (desktopDue cfg now e). }
    destruct (email_test c cfg now && negb (desktopVersion c)
              && negb (getEMailNotificationTimeout cfg =? 0)%N) eqn:Ht;
      cbn [andb]; [| split; [lia | done]].
    destruct (0 <? length (email_selection m2))%nat eqn:Hl; cbn [andb];
      [| split; [lia | done]].
    destruct (decide (bool_decide (pv ∈ names (email_selection m2)) = true))
      as [Hin | Hin]; [| split; [lia | done]].
    split; [lia |]. intros _.
    apply bool_decide_eq_true in Hin.
    apply names_selection_elem in Hin as (e2 & Hk2 & Hdue); [| done | done].
    destruct (Hm2 e2 Hk2) as (e & Hk & Hfe).
    unfold flagged. rewrite Hk, Hmap, lookup_fmap, Hk2. cbn.
    unfold emailDue in Hdue. apply negb_true_iff in Hdue.
    split; [congruence |]. unfold mark_if_due, emailDue. by rewrite Hdue.
  - injection Hstep as Hc.
    assert (acts = (operateFlashLight_iteration c cfg now).2) as ->
      by (by rewrite Hc).
    rewrite operateFlashLight_iteration_no_batch by done.
    cbn. split; [lia | done].
Qed.

(** X12. Along any run a PV is named in at most one e-mail batch per
    alarm period: at most one more than the number of cleared reports for
    it, and not even that one when its entry starts with the e-mail flag
    set. *)
Theorem email_at_most_once c pv evs :
  keys_ok c ->
  (email_notifications pv (run c evs).1
   <= (if flagged emailNotificationSent pv c then 0 else 1)
      + clearings pv evs)%nat.
Proof.
  intros Hok. unfold email_notifications.
  apply (run_at_most_once emailNotificationSent in_email_batch);
    [| apply email_step_once | done].
  intros c0 ev c' acts pv0 Hstep Hcl.
  by destruct (step_keeps_flag _ _ _ _ pv0 Hstep Hcl).
Qed.

Lemma email_at_most_once_witness :
  (email_notifications "pv2" (run example_server example_events).1
   <= (if flagged emailNotificationSent "pv2" example_server then 0 else 1)
      + clearings "pv2" example_events)%nat.
Proof.
  apply (email_at_most_once example_server "pv2" example_events).
  apply map_Forall_singleton. reflexivity.
Defined.

(** ** The flash light *)

Lemma alternating_app on l1 l2 :
  alternating on (l1 ++ l2)
  <-> alternating on l1 /\ alternating (light_after on l1) l2.
Proof.
  revert on. induction l1 as [| a l1 IH]; intros on; cbn [app].
  - cbn. tauto.
  - destruct a; cbn; rewrite ?IH; tauto.
Qed.

Lemma light_after_app on l1 l2 :
  light_after on (l1 ++ l2) = light_after (light_after on l1) l2.
Proof.
  revert on. induction l1 as [| a l1 IH]; intros on; [done |].
  destruct a; cbn; by rewrite IH.
Qed.

Lemma no_flash_call on acts :
  (forall a, a ∈ acts -> ~ flash_call a) ->
  alternating on acts /\ light_after on acts = on.
Proof.
  induction acts as [| a acts IH]; intros H; [done |].
  assert (Ha : ~ flash_call a) by apply H, list_elem_of_here.
  destruct IH as [IH1 IH2].
  { intros b Hb. apply H. by apply list_elem_of_further. }
  unfold flash_call in Ha. destruct a; cbn; tauto.
Qed.

Lemma checkStatusMap_no_flash_call c cfg now a :
  a ∈ (checkStatusMap c cfg now).2 -> ~ flash_call a.
Proof.
  destruct (checkStatusMap_calls c cfg now) as [-> _].
  rewrite !elem_of_app, !elem_of_when. unfold flash_call.
  intros [[_ ->] | [[_ ->] | [[_ ->] | [_ ->]]]] [? | ?]; done.
Qed.

Lemma step_flash_light c ev c' acts :
  step c ev = Ok (c', acts) ->
  alternating (flashlighton c) acts
  /\ flashlighton c' = light_after (flashlighton c) acts.
Proof.
  intros Hstep. destruct ev as [st | cfg now | cfg now]; cbn in Hstep.
  - destruct (notifyStatusChange c st) as [c1 |] eqn:Hn; cbn in Hstep;
      [| done].
    injection Hstep as <- <-. cbn.
    split; [done | by eapply notifyStatusChange_flashlighton].
  - injection Hstep as Hc.
    destruct (checkStatusMap_frame c cfg now) as (_ & _ & _ & Hf).
    destruct (no_flash_call (flashlighton c) (checkStatusMap c cfg now).2)
      as [Ha Hl]; [apply checkStatusMap_no_flash_call |].
    rewrite Hc in Hf, Ha, Hl. cbn in Hf, Ha, Hl. by rewrite Hl.
  - injection Hstep as Hc. revert Hc.
    unfold operateFlashLight_iteration, switchFlashLightOn,
      switchFlashLightOff.
    destruct (desktopVersion c); [by intros [= <- <-] |].
    destruct (flashlighton c) eqn:Hon,
      (size (statusmap c) =? 0)%nat eqn:Hsz,
      (oldestAlarm c + Z.of_N (getLaboratoryNotificationTimeout cfg) <=? now),
      (getLaboratoryNotificationTimeout cfg =? 0)%N;
      cbn [negb andb fst snd flashlighton with_flashlighton statusmap app];
      rewrite ?Hon, ?Hsz; cbn [negb andb fst snd app];
      intros [= <- <-]; cbn; rewrite ?Hon; done.
Qed.

(** X13. The flash light calls of any run alternate, starting from the
    state of the flag: the loop never switches on a light that is on and
    never switches off a light that is off, and after the run the flag
    says what the last call left. *)
Theorem flash_light_alternates c evs :
  alternating (flashlighton c) (run c evs).1
  /\ forall c', (run c evs).2 = Ok c' ->
                flashlighton c' = light_after (flashlighton c) (run c evs).1.
Proof.
  revert c. induction evs as [| ev evs IH]; intros c; cbn [run].
  - split; [done |]. by intros c' [= <-].
  - destruct (step c ev) as [[c1 acts] |] eqn:Hstep; [| by split].
    destruct (step_flash_light _ _ _ _ Hstep) as [Ha Hl].
    destruct (IH c1) as [IHa IHl].
    destruct (run c1 evs) as [acts' r]. cbn [fst snd] in *.
    rewrite alternating_app, light_after_app, <- Hl. by split.
Qed.

Lemma step_lab_frozen c ev c' acts :
  lab_disabled ev -> step c ev = Ok (c', acts) ->
  flashlighton c' = flashlighton c /\ forall a, a ∈ acts -> ~ flash_call a.
Proof.
  intros Hlab Hstep. destruct ev as [st | cfg now | cfg now]; cbn in *.
  - destruct (notifyStatusChange c st) as [c1 |] eqn:Hn; cbn in Hstep;
      [| done].
    injection Hstep as <- <-.
    split; [by eapply notifyStatusChange_flashlighton |].
    by intros a ?%elem_of_nil.
  - injection Hstep as Hc.
    destruct (checkStatusMap_frame c cfg now) as (_ & _ & _ & Hf).
    pose proof (checkStatusMap_no_flash_call c cfg now) as Ha.
    rewrite Hc in Hf, Ha. done.
  - rewrite operateFlashLight_iteration_disabled in Hstep by done.
    injection Hstep as <- <-. split; [done |]. by intros a ?%elem_of_nil.
Qed.

(** X14. While the laboratory timeout reads 0 the flash light is frozen:
    no run makes any flash light call, neither on nor off, and the flag
    keeps its value; a light that is on stays on even when the map is
    empty. *)
Theorem lab_timeout_zero_freezes c evs :
  Forall lab_disabled evs ->
  (forall a, a ∈ (run c evs).1 -> ~ flash_call a)
  /\ forall c', (run c evs).2 = Ok c' -> flashlighton c' = flashlighton c.
Proof.
  revert c. induction evs as [| ev evs IH]; intros c Hall; cbn [run].
  - split; [by intros a ?%elem_of_nil |]. by intros c' [= <-].
  - apply Forall_cons in Hall as [Hev Hall].
    destruct (step c ev) as [[c1 acts] |] eqn:Hstep;
      [| split; [by intros a ?%elem_of_nil | done]].
    destruct (step_lab_frozen _ _ _ _ Hev Hstep) as [Hf Ha].
    destruct (IH c1 Hall) as [IHa IHc].
    destruct (run c1 evs) as [acts' r]. cbn [fst snd] in *.
    split.
    + intros a [H | H]%elem_of_app; [by apply Ha | by apply IHa].
    + intros c' Hr. rewrite <- Hf. by apply IHc.
Qed.

Lemma lab_timeout_zero_freezes_witness :
  let lit := with_flashlighton (fresh false false) true in
  let evs := [FlashLightTick example_cfg 5; WatcherTick example_cfg 6;
              FlashLightTick example_cfg 7] in
  (forall a, a ∈ (run lit evs).1 -> ~ flash_call a)
  /\ forall c', (run lit evs).2 = Ok c' -> flashlighton c' = flashlighton lit.
Proof.
  apply (lab_timeout_zero_freezes (with_flashlighton (fresh false false) true)
           [FlashLightTick example_cfg 5; WatcherTick example_cfg 6;
            FlashLightTick example_cfg 7]).
  repeat constructor.
Defined.

(** ** The desktop version *)

Lemma notifyStatusChange_desktopVersion c st c' :
  notifyStatusChange c st = Ok c' -> desktopVersion c' = desktopVersion c.
Proof.
  intros Hn.
  destruct (notifyStatusChange_cases c st)
    as [(x & _ & Hn') | [(_ & Hn') | (_ & Hn')]];
    rewrite Hn' in Hn; [done | |]; by injection Hn as <-.
Qed.

Lemma step_desktop_version c ev c' acts :
  desktopVersion c = true -> step c ev = Ok (c', acts) ->
  desktopVersion c' = true
  /\ forall a, a ∈ acts ->
       ~ flash_call a /\ forall v, a <> SendEMailNotification v.
Proof.
  intros Hd Hstep. destruct ev as [st | cfg now | cfg now]; cbn in Hstep.
  - destruct (notifyStatusChange c st) as [c1 |] eqn:Hn; cbn in Hstep;
      [| done].
    injection Hstep as <- <-.
    split; [by rewrite (notifyStatusChange_desktopVersion _ _ _ Hn) |].
    by intros a ?%elem_of_nil.
  - injection Hstep as Hc.
    destruct (checkStatusMap_frame c cfg now) as (_ & Hv & _).
    pose proof (checkStatusMap_no_flash_call c cfg now) as Hfl.
    destruct (checkStatusMap_calls c cfg now) as [Hacts _]. cbn zeta in Hacts.
    rewrite Hc in Hv, Hfl, Hacts. cbn in Hv, Hfl, Hacts.
    split; [congruence |]. intros a Ha. split; [by apply Hfl |].
    intros v ->. rewrite Hacts, Hd in Ha.
    rewrite !elem_of_app, !elem_of_when in Ha.
    destruct Ha as [[_ ?] | [[_ ?] | [[_ ?] | [Hb _]]]]; try done.
    by rewrite andb_false_r in Hb.
  - unfold operateFlashLight_iteration in Hstep. rewrite Hd in Hstep.
    injection Hstep as <- <-. split; [done |]. by intros a ?%elem_of_nil.
Qed.

(** X15. A connector in desktop version never makes a flash light call
    and never sends an e-mail batch, whatever it is told and however long
    it runs. *)
Theorem desktop_version_is_silent c evs :
  desktopVersion c = true ->
  forall a, a ∈ (run c evs).1 ->
    ~ flash_call a /\ forall v, a <> SendEMailNotification v.
Proof.
  revert c. induction evs as [| ev evs IH]; intros c Hd a; cbn [run].
  - by intros ?%elem_of_nil.
  - destruct (step c ev) as [[c1 acts] |] eqn:Hstep;
      [| by intros ?%elem_of_nil].
    destruct (step_desktop_version _ _ _ _ Hd Hstep) as [Hd1 Ha].
    specialize (IH c1 Hd1 a).
    destruct (run c1 evs) as [acts' r]. cbn [fst] in *.
    intros [H | H]%elem_of_app; [by apply Ha | by apply IH].
Qed.

Lemma desktop_version_is_silent_witness :
  let a := SendDesktopNotification
             [setDesktopNotificationSent example_alarm true] in
  ~ flash_call a /\ forall v, a <> SendEMailNotification v.
Proof.
  apply (desktop_version_is_silent example_desktop example_events).
  - reflexivity.
  - vm_compute. apply list_elem_of_here.
Defined.

(** ** Edge cases of the watcher tick *)

(** X16. A watcher tick on an empty map sends nothing and leaves the
    connector with the oldest-alarm time at the no-alarm value; its only
    possible call is the Beedo stop, made when Beedo is in use and the
    oldest-alarm time was still set. *)
Theorem tick_on_empty_map c cfg now :
  size (statusmap c) = 0%nat ->
  checkStatusMap c cfg now
  = (with_oldestAlarm c noAlarmActive,
     when (negb (oldestAlarm c =? noAlarmActive) && activateBeedo c)
          BeedoStop).
Proof.
  intros Hsz. rewrite checkStatusMap_eq. cbn zeta.
  assert (H1 : checkStatusMap_reset c
               = (with_oldestAlarm c noAlarmActive,
                  when (negb (oldestAlarm c =? noAlarmActive)
                        && activateBeedo c) BeedoStop)).
  { rewrite checkStatusMap_reset_eq. cbn zeta. rewrite Hsz. cbn [Nat.eqb andb].
    destruct (Z.eqb_spec (oldestAlarm c) noAlarmActive) as [<- | _]; [| done].
    cbn. by rewrite with_oldestAlarm_id. }
  rewrite H1. cbn [fst snd].
  rewrite checkStatusMap_desktop_eq. cbn zeta.
  assert (Hd : desktop_test (with_oldestAlarm c noAlarmActive) cfg now = false).
  { unfold desktop_test. cbn. by rewrite Hsz. }
  rewrite Hd. cbn [andb fst snd when app].
  rewrite checkStatusMap_email_eq. cbn zeta.
  assert (He : email_test (with_oldestAlarm c noAlarmActive) cfg now = false).
  { unfold email_test. cbn. by rewrite Hsz. }
  rewrite He. cbn [andb fst snd when]. by rewrite !app_nil_r.
Qed.

Lemma tick_on_empty_map_witness :
  let c := with_oldestAlarm (fresh true true) 7 in
  checkStatusMap c example_cfg 9
  = (with_oldestAlarm c noAlarmActive,
     when (negb (oldestAlarm c =? noAlarmActive) && activateBeedo c)
          BeedoStop).
Proof.
  apply (tick_on_empty_map (with_oldestAlarm (fresh true true) 7)
           example_cfg 9).
  reflexivity.
Defined.

(** X17. A desktop timeout of 0 switches the desktop notification off:
    a tick sends no desktop batch and changes no desktop flag. *)
Theorem desktop_timeout_zero c cfg now :
  getDesktopNotificationTimeout cfg = 0%N ->
  (forall v, SendDesktopNotification v ∉ (checkStatusMap c cfg now).2)
  /\ forall k,
       desktopNotificationSent <$> (statusmap (checkStatusMap c cfg now).1 !! k)
       = desktopNotificationSent <$> (statusmap c !! k).
Proof.
  intros Hz. destruct (checkStatusMap_calls c cfg now) as [-> ->]. cbn zeta.
  rewrite Hz. cbn [N.eqb negb]. rewrite !andb_false_r. cbn [andb when app].
  split.
  - intros v. rewrite !elem_of_app, !elem_of_when.
    intros [[_ ?] | [[_ ?] | [_ ?]]]; done.
  - intros k. destruct (email_test c cfg now && _ && _); [| done].
    rewrite lookup_fmap. destruct (statusmap c !! k) as [e |]; [| done].
    cbn. unfold mark_if_due. by destruct (emailDue e).
Qed.

Lemma desktop_timeout_zero_witness :
  let cfg := mkAlarmConfiguration 0 0 10 in
  (forall v, SendDesktopNotification v
             ∉ (checkStatusMap example_server cfg 20).2)
  /\ forall k,
       desktopNotificationSent
         <$> (statusmap (checkStatusMap example_server cfg 20).1 !! k)
       = desktopNotificationSent <$> (statusmap example_server !! k).
Proof.
  apply (desktop_timeout_zero example_server (mkAlarmConfiguration 0 0 10) 20).
  reflexivity.
Defined.

(** X18. An e-mail timeout of 0 switches the e-mail notification off: a
    tick sends no e-mail batch and changes no e-mail flag. *)
Theorem email_timeout_zero c cfg now :
  getEMailNotificationTimeout cfg = 0%N ->
  (forall v, SendEMailNotification v ∉ (checkStatusMap c cfg now).2)
  /\ forall k,
       emailNotificationSent <$> (statusmap (checkStatusMap c cfg now).1 !! k)
       = emailNotificationSent <$> (statusmap c !! k).
Proof.
  intros Hz. destruct (checkStatusMap_calls c cfg now) as [-> ->]. cbn zeta.
  rewrite Hz. cbn [N.eqb negb]. rewrite !andb_false_r. cbn [andb when].
  split.
  - intros v. rewrite !app_nil_r, !elem_of_app, !elem_of_when.
    intros [[_ ?] | [[_ ?] | [_ ?]]]; done.
  - intros k. destruct (desktop_test c cfg now && _); [| done].
    unfold desktop_marked. rewrite lookup_fmap.
    destruct (statusmap c !! k) as [e |]; [| done].
    cbn. unfold mark_if_due. by destruct (desktopDue cfg now e).
Qed.

Lemma email_timeout_zero_witness :
  let cfg := mkAlarmConfiguration 0 5 0 in
  (forall v, SendEMailNotification v
             ∉ (checkStatusMap example_server cfg 20).2)
  /\ forall k,
       emailNotificationSent
         <$> (statusmap (checkStatusMap example_server cfg 20).1 !! k)
       = emailNotificationSent <$> (statusmap example_server !! k).
Proof.
  apply (email_timeout_zero example_server (mkAlarmConfiguration 0 5 0) 20).
  reflexivity.
Defined.

(** X19. Beedo does not look at the desktop timeout being 0: in a
    connector with Beedo, a tick with an alarm in the map whose
    oldest-alarm time has passed starts Beedo although desktop
    notifications are switched off and none is sent. *)
Theorem beedo_ignores_disabled_timeout c cfg now :
  activateBeedo c = true ->
  getDesktopNotificationTimeout cfg = 0%N ->
  size (statusmap c) <> 0%nat ->
  oldestAlarm c <= now ->
  BeedoStart ∈ (checkStatusMap c cfg now).2
  /\ forall v, SendDesktopNotification v ∉ (checkStatusMap c cfg now).2.
Proof.
  intros Hb Hz Hsz Hold.
  destruct (checkStatusMap_calls c cfg now) as [-> _]. cbn zeta.
  split.
  - rewrite !elem_of_app, !elem_of_when. right. right. left.
    split; [| done]. rewrite Hb, andb_true_r. unfold desktop_test.
    rewrite Hz. apply andb_true_iff. split.
    + by destruct (Nat.eqb_spec (size (statusmap c)) 0).
    + apply Z.leb_le. cbn. lia.
  - intros v. rewrite Hz. cbn [N.eqb negb]. rewrite !andb_false_r.
    rewrite !elem_of_app, !elem_of_when.
    intros [[_ ?] | [[? _] | [[_ ?] | [_ ?]]]]; done.
Qed.

Lemma beedo_ignores_disabled_timeout_witness :
  let c := mkAlarmServerConnector true true {["pv2" := example_alarm]}
             true false 0 in
  let cfg := mkAlarmConfiguration 0 0 0 in
  BeedoStart ∈ (checkStatusMap c cfg 1).2
  /\ forall v, SendDesktopNotification v ∉ (checkStatusMap c cfg 1).2.
Proof.
  apply (beedo_ignores_disabled_timeout
           (mkAlarmServerConnector true true {["pv2" := example_alarm]}
              true false 0)
           (mkAlarmConfiguration 0 0 0) 1).
  - reflexivity.
  - reflexivity.
  - vm_compute. discriminate.
  - vm_compute. discriminate.
Defined.

(** ** Beedo *)

(** X20. Whatever calls a connector makes, and however often it repeats
    a start or a stop, the play and stop signals Beedo emits alternate,
    starting from the state of its flag, and the flag ends as the last
    signal left it. A start on every tick plays the video once. *)
Theorem beedo_signals_alternate (go : bool) (acts : list action) :
  signals_alternate go (beedo_calls go acts).2
  /\ (beedo_calls go acts).1 = playing_after go (beedo_calls go acts).2.
Proof.
  revert go. induction acts as [| a acts IH]; intros go; [done |].
  destruct a; cbn [beedo_calls]; try apply IH.
  - unfold start_internal. destruct go.
    + specialize (IH true). by destruct (beedo_calls true acts).
    + specialize (IH true). destruct (beedo_calls true acts). cbn in *.
      tauto.
  - unfold stop_internal. destruct go; cbn [negb].
    + specialize (IH false). destruct (beedo_calls false acts). cbn in *.
      tauto.
    + specialize (IH false). by destruct (beedo_calls false acts).
Qed.

(** ** Strings *)

Section Strings.

Lemma append_cons ch (a b : string) :
  String.append (String ch a) b = String ch (String.append a b).
Proof. reflexivity. Qed.

Lemma substring_all (s : string) :
  String.substring 0 (String.length s) s = s.
Proof. induction s as [| ch s IH]; simpl; congruence. Qed.

Lemma substring_0_0 (s : string) : String.substring 0 0 s = EmptyString.
Proof. by destruct s. Qed.

Lemma append_assoc (a b d : string) :
  String.append (String.append a b) d = String.append a (String.append b d).
Proof.
  induction a as [| ch a IH]; [done |]. rewrite !append_cons. congruence.
Qed.

Lemma append_nil_r (a : string) : String.append a EmptyString = a.
Proof.
  induction a as [| ch a IH]; [done |]. rewrite append_cons. congruence.
Qed.

Lemma length_append (a b : string) :
  String.length (String.append a b) = (String.length a + String.length b)%nat.
Proof.
  induction a as [| ch a IH]; [done |]. rewrite append_cons. simpl.
  congruence.
Qed.

Lemma substring_append_l (a b : string) :
  String.substring 0 (String.length a) (String.append a b) = a.
Proof.
  induction a as [| ch a IH]; [apply substring_0_0 |].
  rewrite append_cons. simpl. congruence.
Qed.

Lemma substring_append_r (a b : string) n :
  String.substring (String.length a) n (String.append a b)
  = String.substring 0 n b.
Proof.
  induction a as [| ch a IH]; [done |]. rewrite append_cons. simpl. apply IH.
Qed.

(** A position [index] finds lies inside the string. *)
Lemma index_cons (p : string) ch (s : string) :
  String.index 0 p (String ch s)
  = if String.prefix p (String ch s) then Some 0%nat
    else match String.index 0 p s with
         | Some n => Some (S n)
         | None => None
         end.
Proof. reflexivity. Qed.

Lemma index_le (p s : string) n :
  String.index 0 p s = Some n -> (n <= String.length s)%nat.
Proof.
  revert n. induction s as [| ch s IH]; intros n.
  - destruct p; [| done]. intros [= <-]. apply Nat.le_0_l.
  - rewrite index_cons.
    destruct (String.prefix p (String ch s)).
    + intros [= <-]. apply Nat.le_0_l.
    + destruct (String.index 0 p s) as [m |]; [| done].
      intros [= <-]. specialize (IH m eq_refl). simpl. lia.
Qed.

(** [replace] at a position inside the string does not throw. *)
Lemma replace_inside (s str : string) (pos len : Z) :
  0 <= pos <= StdString.length s ->
  exists r, StdStringSearch.replace s pos len str = Ok r.
Proof.
  intros Hpos. unfold StdStringSearch.replace.
  destruct (Z.ltb_spec (StdString.length s) pos); [lia | eauto].
Qed.

End Strings.

(** ** CMSClient::onMessage *)

(** X21. [onMessage] drops every message that is not a map message with
    TEXT equal to STATE and with the items NAME, SEVERITY and STATUS: the
    connector stays as it is. *)
Theorem onMessage_filter c message now :
  ~ relevant message -> onMessage c message now = Ok c.
Proof.
  intros Hrel. unfold onMessage.
  destruct message as [items |]; [| done].
  destruct (items !! "TEXT") as [text |] eqn:Ht; [| done].
  destruct (String.eqb_spec text "STATE") as [-> | Hne]; [| done].
  cbn [negb].
  destruct (items !! "NAME") as [raw |] eqn:Hn; [| done].
  destruct (items !! "SEVERITY") as [sev |] eqn:Hs; [| done].
  destruct (items !! "STATUS") as [st |] eqn:Hst; [| done].
  exfalso. apply Hrel. exists items. rewrite Hn, Hs, Hst. eauto 6.
Qed.

Lemma onMessage_filter_witness :
  onMessage example_server
    (MapMessage {["TEXT" := "IDLE"; "NAME" := "epics://pv9";
                  "SEVERITY" := "MAJOR"; "STATUS" := "ALARM"]}) 5
  = Ok example_server.
Proof.
  apply (onMessage_filter example_server
           (MapMessage {["TEXT" := "IDLE"; "NAME" := "epics://pv9";
                         "SEVERITY" := "MAJOR"; "STATUS" := "ALARM"]}) 5).
  intros (items & [= <-] & Ht & _). vm_compute in Ht. discriminate.
Defined.

(** X22. A STATE message whose NAME starts with the prefix epics:// is
    the report of the name without the prefix, with the severity and the
    status of the message and the time of its arrival. *)
Theorem onMessage_forwards c items pv sev st now :
  items !! "TEXT" = Some "STATE" ->
  items !! "NAME" = Some (String.append "epics://" pv) ->
  items !! "SEVERITY" = Some sev ->
  items !! "STATUS" = Some st ->
  onMessage c (MapMessage items) now
  = notifyStatusChange c (newAlarmStatusEntry pv sev st now).
Proof.
  intros Ht Hn Hs Hst. unfold onMessage. rewrite Ht, Hn, Hs, Hst.
  cbn [String.eqb Ascii.eqb Bool.eqb negb].
  assert (Hfind : StdStringSearch.find (String.append "epics://" pv)
                    "epics://" = 0).
  { unfold StdStringSearch.find. cbn.
    repeat (destruct (ascii_dec _ _) as [_ | Hne]; [| done]).
    by destruct pv. }
  rewrite Hfind. unfold StdStringSearch.replace, StdString.length.
  rewrite length_append. cbn [String.length].
  destruct (Z.ltb_spec (Z.of_nat (8 + String.length pv)) 0); [lia |].
  replace (Z.to_nat 0) with 0%nat by done.
  replace (Z.to_nat (0 + 8 `min` (Z.of_nat (8 + String.length pv) - 0)))
    with 8%nat by lia.
  replace (Z.to_nat (Z.of_nat (8 + String.length pv) - 0
                     - 8 `min` (Z.of_nat (8 + String.length pv) - 0)))
    with (String.length pv) by lia.
  rewrite substring_0_0. cbn [bind].
  change 8%nat with (String.length "epics://") at 1.
  rewrite substring_append_r, substring_all. done.
Qed.

Lemma onMessage_forwards_witness :
  onMessage example_server
    (MapMessage {["TEXT" := "STATE"; "NAME" := "epics://pv9";
                  "SEVERITY" := "MAJOR"; "STATUS" := "ALARM"]}) 5
  = notifyStatusChange example_server
      (newAlarmStatusEntry "pv9" "MAJOR" "ALARM" 5).
Proof.
  apply (onMessage_forwards example_server
           {["TEXT" := "STATE"; "NAME" := "epics://pv9";
             "SEVERITY" := "MAJOR"; "STATUS" := "ALARM"]}
           "pv9" "MAJOR" "ALARM" 5);
    reflexivity.
Defined.

(** X23. A STATE message whose NAME does not contain epics:// makes
    [onMessage] throw [std::out_of_range]: [find] answers [npos], and
    [replace] is called with this position. *)
Theorem onMessage_without_prefix c items raw sev st now :
  items !! "TEXT" = Some "STATE" ->
  items !! "NAME" = Some raw ->
  items !! "SEVERITY" = Some sev ->
  items !! "STATUS" = Some st ->
  String.index 0 "epics://" raw = None ->
  StdString.length raw < StdStringSearch.npos ->
  onMessage c (MapMessage items) now = Throw out_of_range.
Proof.
  intros Ht Hn Hs Hst Hidx Hlen. unfold onMessage. rewrite Ht, Hn, Hs, Hst.
  cbn [String.eqb Ascii.eqb Bool.eqb negb].
  unfold StdStringSearch.find. rewrite Hidx.
  unfold StdStringSearch.replace.
  by destruct (Z.ltb_spec (StdString.length raw) StdStringSearch.npos);
    [| lia].
Qed.

Lemma onMessage_without_prefix_witness :
  onMessage example_server
    (MapMessage {["TEXT" := "STATE"; "NAME" := "pv9";
                  "SEVERITY" := "MAJOR"; "STATUS" := "ALARM"]}) 5
  = Throw out_of_range.
Proof.
  apply (onMessage_without_prefix example_server
           {["TEXT" := "STATE"; "NAME" := "pv9";
             "SEVERITY" := "MAJOR"; "STATUS" := "ALARM"]}
           "pv9" "MAJOR" "ALARM" 5);
    reflexivity.
Defined.

(** ** The text of the desktop notification *)

Lemma alarmtext_fold (text : string) (alarm : list AlarmStatusEntry) :
  foldl (fun text i => String.append text (String.append (pvname i) LF))
        text alarm
  = String.append text (listing (names alarm)).
Proof.
  revert text. induction alarm as [| e alarm IH]; intros text.
  - cbn. by rewrite append_nil_r.
  - cbn [foldl names fmap list_fmap listing]. rewrite IH.
    by rewrite !append_assoc.
Qed.

Lemma has_LF_cons ch s :
  has_LF (String ch s) = Ascii.eqb ch (Ascii.ascii_of_nat 10) || has_LF s.
Proof. reflexivity. Qed.

Lemma append_nil_l (s : string) : String.append EmptyString s = s.
Proof. reflexivity. Qed.

Lemma append_LF (s : string) :
  String.append LF s = String (Ascii.ascii_of_nat 10) s.
Proof. reflexivity. Qed.

(** A name without line feed ends at the first line feed of the text. *)
Lemma line_inj (n1 n2 r1 r2 : string) :
  has_LF n1 = false -> has_LF n2 = false ->
  String.append n1 (String.append LF r1)
  = String.append n2 (String.append LF r2) ->
  n1 = n2 /\ r1 = r2.
Proof.
  rewrite !append_LF.
  revert n2. induction n1 as [| ch n1 IH]; intros n2 H1 H2 Heq.
  - destruct n2 as [| ch2 n2].
    + rewrite !append_nil_l in Heq. by injection Heq as ->.
    + rewrite has_LF_cons in H2. apply orb_false_iff in H2 as [Hch _].
      rewrite append_nil_l, append_cons in Heq. injection Heq as Hc _.
      rewrite <- Hc in Hch. by rewrite Ascii.eqb_refl in Hch.
  - rewrite has_LF_cons in H1. apply orb_false_iff in H1 as [Hch H1].
    destruct n2 as [| ch2 n2].
    + rewrite append_nil_l, append_cons in Heq. injection Heq as Hc _.
      rewrite Hc in Hch. by rewrite Ascii.eqb_refl in Hch.
    + rewrite has_LF_cons in H2. apply orb_false_iff in H2 as [_ H2].
      rewrite !append_cons in Heq. injection Heq as -> Heq.
      destruct (IH n2 H1 H2 Heq) as [-> ->]. done.
Qed.

Lemma listing_inj (l1 l2 : list string) :
  Forall (fun n => has_LF n = false) l1 ->
  Forall (fun n => has_LF n = false) l2 ->
  listing l1 = listing l2 -> l1 = l2.
Proof.
  revert l2. induction l1 as [| n1 l1 IH]; intros l2 H1 H2 Heq.
  - destruct l2 as [| n2 l2]; [done |]. exfalso.
    apply (f_equal String.length) in Heq. cbn [listing] in Heq.
    rewrite !length_append in Heq. cbn in Heq. lia.
  - destruct l2 as [| n2 l2].
    + exfalso. apply (f_equal String.length) in Heq. cbn [listing] in Heq.
      rewrite !length_append in Heq. cbn in Heq. lia.
    + apply Forall_cons in H1 as [Hn1 H1]. apply Forall_cons in H2 as [Hn2 H2].
      cbn [listing] in Heq.
      destruct (line_inj _ _ _ _ Hn1 Hn2 Heq) as [-> Hr].
      f_equal. by apply IH.
Qed.

(** X24. The text of a desktop notification tells which PVs are in the
    batch and in which order, and nothing else about them: two batches
    whose PV names hold no line feed get the same text exactly when they
    name the same PVs in the same order. *)
Theorem alarmtext_names (v1 v2 : list AlarmStatusEntry) :
  Forall (fun n => has_LF n = false) (names v1) ->
  Forall (fun n => has_LF n = false) (names v2) ->
  alarmtext v1 = alarmtext v2 <-> names v1 = names v2.
Proof.
  intros H1 H2. unfold alarmtext. rewrite !alarmtext_fold. split.
  - intros Heq. apply String.app_inj in Heq. by apply listing_inj.
  - by intros ->.
Qed.

Lemma alarmtext_names_witness :
  let v1 := [example_alarm] in
  let v2 := [setDesktopNotificationSent
               (newAlarmStatusEntry "pv2" "MINOR" "HIGH" 9) true] in
  alarmtext v1 = alarmtext v2 <-> names v1 = names v2.
Proof.
  apply (alarmtext_names [example_alarm]
           [setDesktopNotificationSent
              (newAlarmStatusEntry "pv2" "MINOR" "HIGH" 9) true]);
    repeat constructor.
Defined.

(** ** The location of the configuration file *)

Lemma index_tilde_first (rest : string) :
  String.index 0 "~" (String.append "~" rest) = Some 0%nat.
Proof.
  rewrite append_cons, append_nil_l, index_cons. simpl.
  by destruct rest.
Qed.

(** X25. For every default location, with or without the two environment
    variables, [CreateConfigFileLocation] returns a path and throws
    nothing. ALARMNOTIFICATIONSCONFIG, when set, is the path; without it
    and without HOME, or with a default that holds no tilde, the path is
    the default. *)
Theorem config_location_total (dflt : string) (envvar home : option string) :
  exists path,
    CreateConfigFileLocation dflt envvar home = Ok path
    /\ match envvar with
       | Some v => path = v
       | None => String.index 0 "~" dflt = None \/ home = None -> path = dflt
       end.
Proof.
  unfold CreateConfigFileLocation.
  destruct envvar as [v |]; [by exists v |].
  destruct home as [h |]; [| by exists dflt].
  unfold StdStringSearch.find.
  destruct (String.index 0 "~" dflt) as [n |] eqn:Hidx.
  - pose proof (index_le _ _ _ Hidx) as Hle.
    destruct (Z.eqb_spec (Z.of_nat n) StdStringSearch.npos) as [_ | _];
      cbn [negb].
    + exists dflt. split; [done |]. by intros [? | ?].
    + destruct (replace_inside dflt h (Z.of_nat n) 1) as [r Hr].
      { unfold StdString.length. lia. }
      exists r. split; [done |]. by intros [? | ?].
  - rewrite Z.eqb_refl. cbn [negb]. by exists dflt.
Qed.

(** X26. With HOME set and ALARMNOTIFICATIONSCONFIG not set, a default
    location that starts with a tilde becomes HOME followed by the rest
    of the default; a tilde further on in the default stays. *)
Theorem config_location_home (rest h : string) :
  CreateConfigFileLocation (String.append "~" rest) None (Some h)
  = Ok (String.append h rest).
Proof.
  unfold CreateConfigFileLocation, StdStringSearch.find.
  rewrite index_tilde_first.
  change (Z.of_nat 0 =? StdStringSearch.npos) with false. cbn [negb].
  unfold StdStringSearch.replace, StdString.length.
  rewrite length_append.
  change (String.length "~") with 1%nat.
  destruct (Z.ltb_spec (Z.of_nat (1 + String.length rest)) (Z.of_nat 0));
    [lia |].
  replace (Z.to_nat (Z.of_nat 0)) with 0%nat by done.
  replace (Z.to_nat (Z.of_nat 0
                     + 1 `min` (Z.of_nat (1 + String.length rest)
                                - Z.of_nat 0)))
    with (String.length "~") by (simpl; lia).
  replace (Z.to_nat (Z.of_nat (1 + String.length rest) - Z.of_nat 0
                     - 1 `min` (Z.of_nat (1 + String.length rest)
                                - Z.of_nat 0)))
    with (String.length rest) by lia.
  by rewrite substring_0_0, substring_append_r, substring_all.
Qed.
